(** * Bulker: the bulk-loading core, embedded and verified

    A shallow embedding of the parts of the bulker SQL core that the
    specification talks about: the table model and [Diff], the constraint-name
    registry, the MySQL column DDL, the flattener and the [Complete] step of
    the transactional and replace-table streams.

    Go maps are [gmap]s, Go sets ([utils.Set]) are [gset]s, strings are
    byte strings, and every call that reaches the warehouse threads an
    explicit world. *)

From Stdlib Require Import ZArith Ascii String List Bool Lia.
From stdpp Require Import base option gmap strings list fin_maps pretty sorting.

Local Open Scope string_scope.

(** ** Strings: the pieces of Go's [strings] package the code relies on *)

Module GoStrings.

Local Open Scope Z_scope.

(** Runes are numbers and a string is the sequence of its bytes. *)
Definition byte_of (c : ascii) : Z := Z.of_nat (nat_of_ascii c).
Definition to_byte (n : Z) : ascii := ascii_of_nat (Z.to_nat (n mod 256)).

Definition RuneSelf : Z := 128.
Definition RuneError : Z := 65533.
Definition MaxRune : Z := 1114111.

Definition between (lo hi n : Z) : bool := (lo <=? n)%Z && (n <=? hi)%Z.

(** [utf8.DecodeRuneInString]: the first rune of [s] and its width in
    bytes.  A byte that starts no well-formed encoding is [RuneError] of
    width one.  The size of an encoding and the range accepted for its
    second byte are those of the tables [first] and [acceptRanges]. *)
Definition DecodeRuneInString (s : string) : Z * nat :=
  match s with
  | EmptyString => (RuneError, 0%nat)
  | String c0 rest0 =>
      let s0 := byte_of c0 in
      if (s0 <? RuneSelf)%Z then (s0, 1%nat)
      else
        let '(sz, lo, hi) :=
          if between 194 223 s0 then (2, 128, 191)
          else if (s0 =? 224)%Z then (3, 160, 191)
          else if between 225 236 s0 then (3, 128, 191)
          else if (s0 =? 237)%Z then (3, 128, 159)
          else if between 238 239 s0 then (3, 128, 191)
          else if (s0 =? 240)%Z then (4, 144, 191)
          else if between 241 243 s0 then (4, 128, 191)
          else if (s0 =? 244)%Z then (4, 128, 143)
          else (0, 0, 0)%Z in
        if (sz =? 0)%Z then (RuneError, 1%nat)
        else
          match rest0 with
          | EmptyString => (RuneError, 1%nat)
          | String c1 rest1 =>
              let s1 := byte_of c1 in
              if negb (between lo hi s1) then (RuneError, 1%nat)
              else if (sz <=? 2)%Z
              then (Z.lor (Z.shiftl (Z.land s0 31) 6) (Z.land s1 63), 2%nat)
              else
                match rest1 with
                | EmptyString => (RuneError, 1%nat)
                | String c2 rest2 =>
                    let s2 := byte_of c2 in
                    if negb (between 128 191 s2) then (RuneError, 1%nat)
                    else if (sz <=? 3)%Z
                    then (Z.lor (Z.shiftl (Z.land s0 15) 12)
                            (Z.lor (Z.shiftl (Z.land s1 63) 6) (Z.land s2 63)),
                          3%nat)
                    else
                      match rest2 with
                      | EmptyString => (RuneError, 1%nat)
                      | String c3 _ =>
                          let s3 := byte_of c3 in
                          if negb (between 128 191 s3) then (RuneError, 1%nat)
                          else (Z.lor (Z.shiftl (Z.land s0 7) 18)
                                  (Z.lor (Z.shiftl (Z.land s1 63) 12)
                                     (Z.lor (Z.shiftl (Z.land s2 63) 6)
                                            (Z.land s3 63))),
                                4%nat)
                      end
                end
          end
  end.

(** [utf8.EncodeRune], as [Builder.WriteRune] appends it: a surrogate or a
    number that is no rune is written as [RuneError]. *)
Definition EncodeRune (r : Z) : string :=
  if between 0 127 r then String (to_byte r) EmptyString
  else if between 0 2047 r
  then String (to_byte (Z.lor 192 (Z.shiftr r 6)))
         (String (to_byte (Z.lor 128 (Z.land r 63))) EmptyString)
  else if (r <? 0)%Z || (MaxRune <? r)%Z || between 55296 57343 r
  then String (to_byte 239) (String (to_byte 191) (String (to_byte 189) EmptyString))
  else if (r <=? 65535)%Z
  then String (to_byte (Z.lor 224 (Z.shiftr r 12)))
         (String (to_byte (Z.lor 128 (Z.land (Z.shiftr r 6) 63)))
            (String (to_byte (Z.lor 128 (Z.land r 63))) EmptyString))
  else String (to_byte (Z.lor 240 (Z.shiftr r 18)))
         (String (to_byte (Z.lor 128 (Z.land (Z.shiftr r 12) 63)))
            (String (to_byte (Z.lor 128 (Z.land (Z.shiftr r 6) 63)))
               (String (to_byte (Z.lor 128 (Z.land r 63))) EmptyString))).

(** [strings.Map]: the runes of [s], as a [range] loop meets them, each
    replaced by what [mapping] makes of it and dropped when that is
    negative.  [skip] counts the bytes still to pass of the rune decoded
    last. *)
Fixpoint Map_range (mapping : Z → Z) (skip : nat) (s : string) : string :=
  match s with
  | EmptyString => EmptyString
  | String _ rest =>
      match skip with
      | S k => Map_range mapping k rest
      | O =>
          let r := mapping (fst (DecodeRuneInString s)) in
          String.append (if (0 <=? r)%Z then EncodeRune r else EmptyString)
                        (Map_range mapping (snd (DecodeRuneInString s) - 1)%nat rest)
      end
  end.

Definition Map (mapping : Z → Z) (s : string) : string := Map_range mapping 0 s.

(** [unicode.To(LowerCase, r)] for a rune beyond ASCII reads the case tables
    of the Go library ([unicode.CaseRanges]), which differ between its
    versions; they are a parameter of the development. *)
Class CaseRanges := To_LowerCase : Z → Z.

(** [unicode.ToLower]. *)
Definition unicode_ToLower {cr : CaseRanges} (r : Z) : Z :=
  if (r <=? 127)%Z
  then if between 65 90 r then (r + 32)%Z else r
  else To_LowerCase r.

(** The ASCII path of [strings.ToLower]: upper-case letters are folded byte
    by byte. *)
Definition lower_ascii (c : ascii) : ascii :=
  let n := nat_of_ascii c in
  if (65 <=? n)%nat && (n <=? 90)%nat then ascii_of_nat (n + 32) else c.

Fixpoint lower_bytes (s : string) : string :=
  match s with
  | EmptyString => EmptyString
  | String c rest => String (lower_ascii c) (lower_bytes rest)
  end.

Fixpoint isASCII (s : string) : bool :=
  match s with
  | EmptyString => true
  | String c rest => (byte_of c <? RuneSelf)%Z && isASCII rest
  end.

(** [strings.ToLower]: a string of ASCII bytes is folded in place; any
    other string is mapped rune by rune with [unicode.ToLower]. *)
Definition ToLower {cr : CaseRanges} (s : string) : string :=
  if isASCII s then lower_bytes s else Map unicode_ToLower s.

Local Close Scope Z_scope.

(** [strings.HasPrefix s p]: [s] begins with [p]. *)
Fixpoint HasPrefix (s p : string) {struct p} : bool :=
  match p with
  | EmptyString => true
  | String c p' =>
      match s with
      | EmptyString => false
      | String d s' => if Ascii.eqb c d then HasPrefix s' p' else false
      end
  end.

(** [strings.Contains s sub]: [sub] occurs somewhere in [s]. *)
Fixpoint Contains (s sub : string) : bool :=
  if HasPrefix s sub then true
  else match s with
       | EmptyString => false
       | String _ rest => Contains rest sub
       end.

(** [strings.Join parts sep]. *)
Definition Join (parts : list string) (sep : string) : string :=
  String.concat sep parts.

Definition is_alnum (c : ascii) : bool :=
  let n := nat_of_ascii c in
  ((48 <=? n)%nat && (n <=? 57)%nat)
  || ((65 <=? n)%nat && (n <=? 90)%nat)
  || ((97 <=? n)%nat && (n <=? 122)%nat).

Fixpoint all_alnum (s : string) : bool :=
  match s with
  | EmptyString => true
  | String c rest => is_alnum c && all_alnum rest
  end.

End GoStrings.
Import GoStrings.

(** ** Table model ([Table], [SQLColumn]) *)

(** Modelled from the spec: [types.DataType] is declared outside the files at
    hand; the spec lists its seven canonical members. *)
Inductive DataType :=
  STRING | INT64 | FLOAT64 | BOOL | TIMESTAMP | JSON | UNKNOWN.

Record SQLColumn := mkSQLColumn {
  Type_ : string;
  DdlType : string;
  Override : bool;
  ColDataType : DataType;
  New : bool
}.

(** [SQLColumn{Type: t}]: every other field at its zero value (which member
    of [DataType] is the zero value is not visible in the files at hand). *)
Definition column_of_type (t : string) : SQLColumn :=
  mkSQLColumn t "" false UNKNOWN false.

Definition GetDDLType (c : SQLColumn) : string :=
  if decide (DdlType c = "") then Type_ c else DdlType c.

(** Modelled from the spec: [DatePartition] is declared outside the files at
    hand; the spec gives its fields as field, value and granularity. *)
Record DatePartition := mkDatePartition {
  PartField : string;
  PartValue : string;
  PartGranularity : string
}.

Definition no_partition : DatePartition := mkDatePartition "" "" "".

Record Table := mkTable {
  Name : string;
  Temporary : bool;
  Cached : bool;
  Columns : gmap string SQLColumn;
  PKFields : gset string;
  PrimaryKeyName : string;
  TimestampColumn : string;
  Partition : DatePartition;
  DeletePkFields : bool
}.

(** [len] of a Go map or set is positive. *)
Definition nonempty_map {V} (m : gmap string V) : bool :=
  bool_decide (m ≠ ∅).
Definition nonempty_set (s : gset string) : bool :=
  bool_decide (s ≠ ∅).

(** [Exists]: the receiver may be nil. *)
Definition Exists (t : option Table) : bool :=
  match t with
  | None => false
  | Some t =>
      nonempty_map (Columns t) || nonempty_set (PKFields t) || DeletePkFields t
  end.

(** ** Constraint names *)

Definition BulkerManagedPkConstraintPrefix : string := "jitsu_pk_".

Definition alphabet : list ascii :=
  list_ascii_of_string
    "abcdefghijklmnopqrstuvwxyzABCDEFGHIJKLMNOPQRSTUVWXYZ0123456789".

(** Modelled from the spec: [uuid.NewLettersNumbers] is not among the files
    at hand.  The spec names bulker-managed constraints
    [jitsu_pk_<alnum>]; the generator is modelled as a function of the
    entropy it draws, one letter or digit per drawn number. *)
Fixpoint NewLettersNumbers (entropy : list nat) : string :=
  match entropy with
  | [] => EmptyString
  | n :: rest =>
      String (nth (n mod 62) alphabet "a"%char) (NewLettersNumbers rest)
  end.

(** [BuildConstraintName]: the table name takes no part in the result. *)
Definition BuildConstraintName (tableName : string) (entropy : list nat) : string :=
  BulkerManagedPkConstraintPrefix +:+ NewLettersNumbers entropy.

(** The guard of [Diff]: the primary key is not maintained by bulker. *)
Definition pk_not_managed {cr : CaseRanges} (pkName : string) : bool :=
  negb (bool_decide (pkName = ""))
  && negb (HasPrefix (ToLower pkName) BulkerManagedPkConstraintPrefix).

(** The loop of [Diff]: columns of [another] that [t] misses. *)
Definition missing_columns (t another : gmap string SQLColumn)
  : gmap string SQLColumn :=
  map_fold
    (fun name column (acc : gmap string SQLColumn) =>
       match t !! name with
       | Some _ => acc
       | None => <[name := column]> acc
       end)
    ∅ another.

Definition empty_diff (t : Table) : Table :=
  mkTable (Name t) false false ∅ ∅ "" "" no_partition false.

Definition with_pk (d : Table) (pk : gset string) (pkName : string) (del : bool)
  : Table :=
  mkTable (Name d) (Temporary d) (Cached d) (Columns d) pk pkName
          (TimestampColumn d) (Partition d) del.

(** [Diff].  [Equals] of [utils.Set] is declared outside the files at hand
    and taken to be equality of sets. *)
Definition Diff {cr : CaseRanges} (t : Table) (another : option Table)
           (entropy : list nat) : Table :=
  let diff := empty_diff t in
  if negb (Exists another) then diff
  else
    match another with
    | None => diff
    | Some another =>
        let diff :=
          mkTable (Name t) false false
                  (missing_columns (Columns t) (Columns another))
                  ∅ "" "" no_partition false in
        let jitsuPrimaryKeyName := BuildConstraintName (Name t) entropy in
        if pk_not_managed (PrimaryKeyName t) then diff
        else if nonempty_set (PKFields t) then
          if negb (bool_decide (PKFields t = PKFields another)) then
            with_pk diff (PKFields another) jitsuPrimaryKeyName true
          else diff
        else if nonempty_set (PKFields another) then
          with_pk diff (PKFields another) jitsuPrimaryKeyName false
        else diff
    end.

(** A table with text columns [cols] and the primary key [pk]. *)
Definition pk_table (name pkName : string) (cols : list string) (pk : list string)
  : Table :=
  mkTable name false false
          (list_to_map (map (fun c => (c, column_of_type "TEXT")) cols))
          (list_to_set pk) pkName "" no_partition false.

(** [FitsToTable]. *)
Definition FitsToTable (t destination : Table) : bool :=
  bool_decide (map_Forall (fun name _ => is_Some (Columns destination !! name))
                          (Columns t)).

(** ** MySQL column DDL ([mysql.go]) *)

Definition mySQLPrimaryKeyTypesMapping : gmap string string :=
  {[ "TEXT" := "VARCHAR(255)" ]}.

Definition mySQLColumnDDL (name quotedName : string) (column : SQLColumn)
           (pkFields : gset string) : string :=
  let sqlType := GetDDLType column in
  let sqlType :=
    if decide (name ∈ pkFields) then
      match mySQLPrimaryKeyTypesMapping !! sqlType with
      | Some typeForPKField => typeForPKField
      | None => sqlType
      end
    else sqlType in
  quotedName +:+ " " +:+ sqlType.

(** ** Results of fallible calls *)

Inductive res (E A : Type) : Type :=
| Ok (a : A)
| Err (e : E).
Arguments Ok {E A} a.
Arguments Err {E A} e.

(** ** Flattener ([FlattenerImpl]) *)

(** A decoded record value, Go's [any]: nil, bool, numbers, string, slice
    and [map[string]any].  A map is listed in the order in which [range]
    visits it; its keys are pairwise distinct. *)
Unset Elimination Schemes.
Inductive value : Type :=
| VNil
| VBool (b : bool)
| VInt (n : Z)
| VFloat (lit : string)
| VStr (s : string)
| VSlice (items : list value)
| VMap (fields : list (string * value)).
Set Elimination Schemes.

Inductive FlattenError : Type :=
| MarshalError (key : string).

Record FlattenerImpl := mkFlattenerImpl { omitNilValues : bool }.

Definition NewFlattener : FlattenerImpl := mkFlattenerImpl true.

Definition is_nil (v : value) : bool :=
  match v with VNil => true | _ => false end.

(** The key of a field [k] met while flattening under [key]. *)
Definition child_key (key k : string) : string :=
  if decide (key = "") then k else key +:+ "_" +:+ k.

Section Flattener.

(** The reserved marker of SQL-type meta fields and the JSON encoder
    ([jsoniter.Marshal]) come from outside the files at hand. *)
Variable SqlTypeKeyword : string.
Variable Marshal : value → option string.

(** [flatten]: [destination] is the map the Go code mutates. *)
Fixpoint flatten (f : FlattenerImpl) (key : string) (v : value)
         (destination : gmap string value) {struct v}
  : res FlattenError (gmap string value) :=
  match v with
  | VSlice _ =>
      if Contains key SqlTypeKeyword then Ok (<[key := v]> destination)
      else match Marshal v with
           | None => Err (MarshalError key)
           | Some b => Ok (<[key := VStr b]> destination)
           end
  | VMap unboxed =>
      (fix range (fields : list (string * value))
           (destination : gmap string value) {struct fields} :=
         match fields with
         | [] => Ok destination
         | (k, v') :: rest =>
             let newKey := child_key key k in
             match flatten f newKey v' destination with
             | Err e => Err e
             | Ok destination => range rest destination
             end
         end) unboxed destination
  | VBool boolValue => Ok (<[key := VBool boolValue]> destination)
  | _ =>
      if negb (omitNilValues f) || negb (is_nil v)
      then Ok (<[key := v]> destination)
      else Ok destination
  end.

Definition FlattenObject (f : FlattenerImpl) (json : list (string * value))
  : res FlattenError (gmap string value) :=
  match flatten f "" (VMap json) ∅ with
  | Err e => Err e
  | Ok flattenMap =>
      match flattenMap !! "" with
      | Some emptyKeyValue =>
          Ok (delete "" (<["_unnamed" := emptyKeyValue]> flattenMap))
      | None => Ok flattenMap
      end
  end.

End Flattener.

(** [DummyFlattener.FlattenObject] returns the record it is given. *)
Definition DummyFlattenObject (json : list (string * value))
  : res FlattenError (list (string * value)) := Ok json.

(** The key that [flatten] builds for a path below [key]. *)
Definition path_key (key : string) (path : list string) : string :=
  fold_left child_key path key.

(** A non-mapping value reached from a root along a path of keys. *)
Inductive Leaf : list string → value → value → Prop :=
| Leaf_here v :
    (∀ fields, v ≠ VMap fields) → Leaf [] v v
| Leaf_below k v fields path l :
    In (k, v) fields → Leaf path v l → Leaf (k :: path) (VMap fields) l.

(** What [flatten] stores under [key] for a leaf. *)
Definition stored (SqlTypeKeyword : string) (Marshal : value → option string)
           (f : FlattenerImpl) (key : string) (l : value) : option value :=
  match l with
  | VSlice _ =>
      if Contains key SqlTypeKeyword then Some l else VStr <$> Marshal l
  | VNil => if omitNilValues f then None else Some VNil
  | _ => Some l
  end.

(** The value left under a key once a leaf with stored value [x] was met. *)
Definition overwritten (x old : option value) : option value :=
  match x with
  | Some _ => x
  | None => old
  end.

(** The record of the spec's flatten scenario:
    [{"$a":1, "(b)":2, "c":{"d":{"e":3}}, "arr":[1,2]}]. *)
Definition scenario_record : list (string * value) :=
  [("$a", VInt 1); ("(b)", VInt 2);
   ("c", VMap [("d", VMap [("e", VInt 3)])]);
   ("arr", VSlice [VInt 1; VInt 2])].

(** The entry under [k0] after flattening [v] below [key], when all leaves
    that land on [k0] agree on the stored value [x0]: either no leaf lands
    on [k0] and the entry is as before, or some leaf does and the entry is
    [x0] (or as before when nothing is stored for those leaves). *)
Definition lookup_after (SqlTypeKeyword : string)
           (Marshal : value → option string) (f : FlattenerImpl)
           (key : string) (v : value) : Prop :=
  ∀ (d d' : gmap string value) (k0 : string) (x0 : option value),
    flatten SqlTypeKeyword Marshal f key v d = Ok d' →
    (∀ p l, Leaf p v l → path_key key p = k0 →
            stored SqlTypeKeyword Marshal f k0 l = x0) →
    (d' !! k0 = d !! k0 ∧ ∀ p l, Leaf p v l → path_key key p ≠ k0)
    ∨ (d' !! k0 = overwritten x0 (d !! k0)
       ∧ ∃ p l, Leaf p v l ∧ path_key key p = k0).

(** A compact JSON encoder for values without strings that need escaping,
    used to run the flattener on sample records. *)
Definition quote : string := String (ascii_of_nat 34) EmptyString.

Fixpoint encode (v : value) : string :=
  match v with
  | VNil => "null"
  | VBool b => if b then "true" else "false"
  | VInt n => pretty n
  | VFloat lit => lit
  | VStr s => quote +:+ s +:+ quote
  | VSlice items => "[" +:+ String.concat "," (map encode items) +:+ "]"
  | VMap fields =>
      "{" +:+ String.concat ","
                (map (fun kv => quote +:+ fst kv +:+ quote +:+ ":" +:+ encode (snd kv))
                     fields)
      +:+ "}"
  end.

Definition sample_marshal (v : value) : option string := Some (encode v).

(** A sample value of the marker. *)
Definition sample_keyword : string := "__sql_type".

(** The [range] loop of [flatten] over the fields of a mapping. *)
Fixpoint flatten_fields (SqlTypeKeyword : string)
         (Marshal : value → option string) (f : FlattenerImpl) (key : string)
         (fields : list (string * value)) (destination : gmap string value)
  : res FlattenError (gmap string value) :=
  match fields with
  | [] => Ok destination
  | (k, v') :: rest =>
      match flatten SqlTypeKeyword Marshal f (child_key key k) v' destination with
      | Err e => Err e
      | Ok destination => flatten_fields SqlTypeKeyword Marshal f key rest destination
      end
  end.


(** ** Errors and stream state *)

(** Modelled from the spec: the error types of [errorj] are declared outside
    the files at hand; the kinds are those the adapters and the streams
    name. *)
Inductive ErrorKind : Type :=
| DropError | RenameError | LoadError | GetTableError | GetPrimaryKeysError
| TruncateError | CopyError | CreateTableError | PatchTableError
| CommitError | RollbackError | DriverError | StreamNotActive.

Record error := mkError { kind : ErrorKind; message : string }.

Global Instance ErrorKind_eq_dec : EqDecision ErrorKind.
Proof. solve_decision. Defined.

(** [errorx.IsOfType(err, t)]; a nil error is of no type. *)
Definition IsOfType (err : option error) (t : ErrorKind) : bool :=
  match err with
  | None => false
  | Some e => bool_decide (kind e = t)
  end.

(** [errorj.Decorate]: same kind, longer message. *)
Definition Decorate (e : error) (msg : string) : error :=
  mkError (kind e) (msg +:+ ": " +:+ message e).

Inductive Status : Type := Active | Completed | Aborted | Failed.

Global Instance Status_eq_dec : EqDecision Status.
Proof. solve_decision. Defined.

(** Modelled from the spec: [bulker.State] is declared outside the files at
    hand; the spec gives its fields. *)
Record State := mkState {
  StreamStatus : Status;
  LastError : option error;
  SuccessfulRows : Z;
  ProcessedRows : Z;
  Representation : option Table
}.

Inductive FileFormat : Type := CSV | NDJSON.

Global Instance FileFormat_eq_dec : EqDecision FileFormat.
Proof. solve_decision. Defined.

Inductive LoadSourceType : Type := LocalFile | AmazonS3.

Global Instance LoadSourceType_eq_dec : EqDecision LoadSourceType.
Proof. solve_decision. Defined.

Record LoadSource := mkLoadSource {
  SourceType : LoadSourceType;
  SourceFormat : FileFormat;
  SourcePath : string
}.

(** The fields of [AbstractTransactionalSQLStream] that [Complete] reads.
    [tx] says whether a transaction is open ([ps.tx != nil]); [tmpTable]
    and [dstTable] are the tables [init] and [Consume] have set up. *)
Record Stream := mkStream {
  id : string;
  tableName : string;
  merge : bool;
  state : State;
  batchFile : option string;
  batchFileFormat : FileFormat;
  tmpTable : Table;
  dstTable : Table;
  tx : bool
}.

Definition set_state (ps : Stream) (st : State) : Stream :=
  mkStream (id ps) (tableName ps) (merge ps) st (batchFile ps)
           (batchFileFormat ps) (tmpTable ps) (dstTable ps) (tx ps).

Definition set_dstTable (ps : Stream) (t : Table) : Stream :=
  mkStream (id ps) (tableName ps) (merge ps) (state ps) (batchFile ps)
           (batchFileFormat ps) (tmpTable ps) t (tx ps).

Definition release (ps : Stream) : Stream :=
  mkStream (id ps) (tableName ps) (merge ps) (state ps) None
           (batchFileFormat ps) (tmpTable ps) (dstTable ps) false.

(** Modelled from the spec: [updateRepresentationTable] belongs to the
    absent [AbstractSQLStream]; the representation is the current
    destination table snapshot. *)
Definition updateRepresentationTable (ps : Stream) (t : Table) : Stream :=
  set_state ps (mkState (StreamStatus (state ps)) (LastError (state ps))
                        (SuccessfulRows (state ps)) (ProcessedRows (state ps))
                        (Some t)).

(** ** The SQL adapter interface *)

(** The operations of [SQLAdapter] and [TxSQLAdapter] that the streams
    call, over a world [W] that holds the warehouse. *)
Class SQLAdapter (W : Type) := {
  GetTableSchema : string → W → res error Table * W;
  TruncateTable : string → W → option error * W;
  ReplaceTable : string → Table → bool → W → option error * W;
  CopyTables : Table → Table → bool → W → option error * W;
  LoadTable : Table → LoadSource → W → option error * W;
  DropTable : string → bool → W → option error * W;
  EnsureTableWithoutCaching : string → Table → W → res error Table * W;
  Commit : W → option error * W;
  Rollback : W → option error * W
}.

(** The calls a stream makes, in the order it makes them. *)
Inductive Call : Type :=
| CallLoadTable (target : Table) (source : LoadSource)
| CallEnsureTable (target : Table)
| CallCopyTables (target source : Table) (merge : bool)
| CallReplaceTable (targetTableName : string) (replacement : Table)
                   (dropOldTable : bool)
| CallGetTableSchema (tableName : string)
| CallTruncateTable (tableName : string)
| CallDropTable (tableName : string) (ifExists : bool)
| CallCommit
| CallRollback
| CallRemoveFile (path : string).

(** Computations that act on the world and log their calls. *)
Definition Eff (W A : Type) : Type := W → list Call → A * W * list Call.

Definition ret {W A} (a : A) : Eff W A := fun w log => (a, w, log).

Definition bind {W A B} (m : Eff W A) (k : A → Eff W B) : Eff W B :=
  fun w log => let '(a, w', log') := m w log in k a w' log'.

Definition call {W A} (c : Call) (op : W → A * W) : Eff W A :=
  fun w log => let '(a, w') := op w in (a, w', (log ++ [c])%list).

Definition run {W A} (m : Eff W A) (w : W) : A * W * list Call := m w [].

Declare Scope eff_scope.
Delimit Scope eff_scope with eff.
Notation "x <- m ;; k" := (bind m (fun x => k))
  (at level 100, m at next level, right associativity) : eff_scope.

Section Streams.

Context {W : Type} {adapter : SQLAdapter W}.
Local Open Scope eff_scope.

(** Modelled from the spec: [flushBatchFile] belongs to the absent
    [AbstractTransactionalSQLStream]; on flush the writer hands the batch
    file to [load_table] of the temporary table. *)
Definition flushBatchFile (ps : Stream) (path : string) : Eff W (option error) :=
  let source := mkLoadSource LocalFile (batchFileFormat ps) path in
  call (CallLoadTable (tmpTable ps) source) (LoadTable (tmpTable ps) source).

Definition finish (ps : Stream) (st : Status) (err : option error) : Stream :=
  set_state (release ps)
            (mkState st err (SuccessfulRows (state ps))
                     (ProcessedRows (state ps)) (Representation (state ps))).

(** The error [postComplete] acts on: the error of the call, which becomes
    the stream's [last_error], or else the [last_error] the stream already
    carries. *)
Definition pending_error (ps : Stream) (err : option error) : option error :=
  match err with
  | Some e => Some e
  | None => LastError (state ps)
  end.

(** Modelled from the spec: [postComplete] belongs to the absent
    [AbstractTransactionalSQLStream].  It releases the temporary table, the
    batch file and the transaction; if [last_error] is set it rolls back,
    fails the stream and returns that error; otherwise it commits and
    completes the stream. *)
Definition postComplete (ps : Stream) (err : option error)
  : Eff W (State * option error * Stream) :=
  _ <- (if tx ps
       then call (CallDropTable (Name (tmpTable ps)) true)
                 (DropTable (Name (tmpTable ps)) true)
       else ret None) ;;
  _ <- (match batchFile ps with
       | Some path => call (CallRemoveFile path) (fun w => (tt, w))
       | None => ret tt
       end) ;;
  match pending_error ps err with
  | Some e =>
      _ <- (if tx ps then call CallRollback Rollback else ret None) ;;
      let ps' := finish ps Failed (Some e) in
      ret (state ps', Some e, ps')
  | None =>
      cerr <- (if tx ps then call CallCommit Commit else ret None) ;;
      let ps' := match cerr with
                 | None => finish ps Completed None
                 | Some e => finish ps Failed (Some e)
                 end in
      ret (state ps', cerr, ps')
  end.

Definition not_active : error := mkError StreamNotActive "stream is not active".

(** [TransactionalStream.Complete], up to the deferred [postComplete]. *)
Definition TransactionalStream_body (ps : Stream) : Eff W (option error * Stream) :=
  if (0 <? SuccessfulRows (state ps))%Z then
    ferr <- (match batchFile ps with
            | Some path => flushBatchFile ps path
            | None => ret None
            end) ;;
    match ferr with
    | Some e => ret (Some e, ps)
    | None =>
        r <- call (CallEnsureTable (dstTable ps))
                 (EnsureTableWithoutCaching (id ps) (dstTable ps)) ;;
        match r with
        | Err e =>
            ret (Some (Decorate e "failed to ensure destination table"),
                 updateRepresentationTable ps (dstTable ps))
        | Ok dstTable' =>
            let ps := set_dstTable ps dstTable' in
            let ps := updateRepresentationTable ps (dstTable ps) in
            err <- call (CallCopyTables (dstTable ps) (tmpTable ps) (merge ps))
                       (CopyTables (dstTable ps) (tmpTable ps) (merge ps)) ;;
            ret (err, ps)
        end
    end
  else ret (LastError (state ps), ps).

Definition TransactionalStream_Complete (ps : Stream)
  : Eff W (State * option error * Stream) :=
  if negb (bool_decide (StreamStatus (state ps) = Active))
  then ret (state ps, Some not_active, ps)
  else
    r <- TransactionalStream_body ps ;;
    postComplete (snd r) (fst r).

(** [ReplaceTableStream.Complete], up to the deferred [postComplete]. *)
Definition ReplaceTableStream_body (ps : Stream) : Eff W (option error * Stream) :=
  match LastError (state ps) with
  | None =>
      if (0 <? SuccessfulRows (state ps))%Z then
        ferr <- (match batchFile ps with
                | Some path => flushBatchFile ps path
                | None => ret None
                end) ;;
        match ferr with
        | Some e => ret (Some e, ps)
        | None =>
            err <- call (CallReplaceTable (tableName ps) (tmpTable ps) true)
                       (ReplaceTable (tableName ps) (tmpTable ps) true) ;;
            err <- (if IsOfType err DropError
                   then call (CallReplaceTable (tableName ps) (tmpTable ps) false)
                             (ReplaceTable (tableName ps) (tmpTable ps) false)
                   else ret err) ;;
            ret (err, ps)
        end
      else
        r <- call (CallGetTableSchema (tableName ps))
                 (GetTableSchema (tableName ps)) ;;
        match r with
        | Err e => ret (Some e, ps)
        | Ok table =>
            if Exists (Some table)
            then
              err <- call (CallTruncateTable (tableName ps))
                         (TruncateTable (tableName ps)) ;;
              ret (err, ps)
            else ret (None, ps)
        end
  | Some e => ret (Some e, ps)
  end.

Definition ReplaceTableStream_Complete (ps : Stream)
  : Eff W (State * option error * Stream) :=
  if negb (bool_decide (StreamStatus (state ps) = Active))
  then ret (state ps, Some not_active, ps)
  else
    r <- ReplaceTableStream_body ps ;;
    postComplete (snd r) (fst r).

End Streams.

(** ** The MySQL adapter over a model of the server ([mysql.go]) *)

(** What the server keeps of a table: the rows of
    [information_schema.columns] (name and column type), the columns whose
    key is [PRI], and the data, one map from column to cell text per row. *)
Record TableData := mkTableData {
  td_columns : list (string * string);
  td_pk : list string;
  td_rows : list (gmap string string)
}.

(** The statements the adapter sends. *)
Inductive Statement : Type :=
| StmtSelectColumns (table : string)
| StmtSelectPrimaryKeys (table : string)
| StmtSelectExists (table : string)
| StmtRename (table newName : string)
| StmtDrop (table : string)
| StmtTruncate (table : string)
| StmtCreate (table : string)
| StmtAlter (table : string)
| StmtLoad (table : string)
| StmtInsertSelect (target source : string)
| StmtCommit
| StmtRollback.

(** The server and what surrounds the adapter: tables, local batch files,
    the readings that successive calls of [timestamp.Now] will format, the
    entropy that successive constraint names will draw, the statements the
    server rejects, and the batch format fixed by [NewMySQL]. *)
Record MySQL := mkMySQL {
  tables : gmap string TableData;
  files : gmap string (list (gmap string string));
  clock : list string;
  random : list (list nat);
  rejects : Statement → bool;
  mysqlBatchFileFormat : FileFormat
}.

Definition set_tables (m : MySQL) (t : gmap string TableData) : MySQL :=
  mkMySQL t (files m) (clock m) (random m) (rejects m) (mysqlBatchFileFormat m).

Definition tick (m : MySQL) : string * MySQL :=
  (hd "" (clock m),
   mkMySQL (tables m) (files m) (tl (clock m)) (random m) (rejects m)
           (mysqlBatchFileFormat m)).

Definition draw (m : MySQL) : list nat * MySQL :=
  (hd [] (random m),
   mkMySQL (tables m) (files m) (clock m) (tl (random m)) (rejects m)
           (mysqlBatchFileFormat m)).

Definition information_schema_columns (m : MySQL) (tableName : string)
  : list (string * string) :=
  match tables m !! tableName with
  | Some td => td_columns td
  | None => []
  end.

Definition information_schema_primary_keys (m : MySQL) (tableName : string)
  : list string :=
  match tables m !! tableName with
  | Some td => td_pk td
  | None => []
  end.

(** [getTable]: one column per row, rows with an empty type are skipped.
    The name normalisation [m.TableName] is declared outside the files at
    hand and taken to leave the name as it is. *)
Definition getTable (tableName : string) (m : MySQL) : res error Table :=
  if rejects m (StmtSelectColumns tableName)
  then Err (mkError GetTableError "failed to get table columns")
  else
    Ok (mkTable tableName false false
          (fold_left
             (fun (columns : gmap string SQLColumn) (row : string * string) =>
                if decide (snd row = "") then columns
                else <[fst row := column_of_type (snd row)]> columns)
             (information_schema_columns m tableName) ∅)
          ∅ "" "" no_partition false).

Definition getPrimaryKeys (tableName : string) (m : MySQL)
  : res error (gset string) :=
  if rejects m (StmtSelectPrimaryKeys tableName)
  then Err (mkError GetPrimaryKeysError "failed to get primary key")
  else Ok (list_to_set (information_schema_primary_keys m tableName)).

Definition with_primary_key (t : Table) (pk : gset string) (pkName : string)
  : Table :=
  mkTable (Name t) (Temporary t) (Cached t) (Columns t) pk pkName
          (TimestampColumn t) (Partition t) (DeletePkFields t).

(** [MySQL.GetTableSchema]. *)
Definition mysql_GetTableSchema (tableName : string) (m : MySQL)
  : res error Table * MySQL :=
  match getTable tableName m with
  | Err e => (Err e, m)
  | Ok table =>
      if negb (nonempty_map (Columns table)) then (Ok table, m)
      else
        match getPrimaryKeys tableName m with
        | Err e => (Err e, m)
        | Ok pkFields =>
            if nonempty_set pkFields then
              let (entropy, m') := draw m in
              (Ok (with_primary_key table pkFields
                     (BuildConstraintName (Name table) entropy)), m')
            else (Ok (with_primary_key table pkFields (PrimaryKeyName table)), m)
        end
  end.

(** Modelled from the spec: [SQLAdapterBase.renameTable] is not among the
    files at hand.  A rename moves the table; the server refuses it when
    the table is missing or the new name is taken. *)
Definition base_renameTable (tableName newTableName : string) (m : MySQL)
  : option error * MySQL :=
  match tables m !! tableName, tables m !! newTableName with
  | Some td, None =>
      if rejects m (StmtRename tableName newTableName)
      then (Some (mkError RenameError "failed to rename table"), m)
      else (None, set_tables m (<[newTableName := td]> (delete tableName (tables m))))
  | _, _ => (Some (mkError RenameError "failed to rename table"), m)
  end.

(** [MySQL.renameTable]. *)
Definition mysql_renameTable (ifExists : bool) (tableName newTableName : string)
           (m : MySQL) : option error * MySQL :=
  if ifExists then
    if rejects m (StmtSelectExists tableName)
    then (Some (mkError DriverError "failed to scan"), m)
    else
      match tables m !! tableName with
      | None => (None, m)
      | Some _ => base_renameTable tableName newTableName m
      end
  else base_renameTable tableName newTableName m.

(** Modelled from the spec: [SQLAdapterBase.DropTable] is not among the
    files at hand.  A failed drop surfaces as a [DropError]. *)
Definition mysql_DropTable (tableName : string) (ifExists : bool) (m : MySQL)
  : option error * MySQL :=
  if rejects m (StmtDrop tableName)
  then (Some (mkError DropError "failed to drop table"), m)
  else
    match tables m !! tableName with
    | Some _ => (None, set_tables m (delete tableName (tables m)))
    | None =>
        if ifExists then (None, m)
        else (Some (mkError DropError "failed to drop table"), m)
    end.

(** [MySQL.ReplaceTable]. *)
Definition mysql_ReplaceTable (targetTableName : string)
           (replacementTable : Table) (dropOldTable : bool) (m : MySQL)
  : option error * MySQL :=
  let (now, m) := tick m in
  let tmpTable := "deprecated_" +:+ targetTableName +:+ "_" +:+ now in
  let (err1, m) := mysql_renameTable true targetTableName tmpTable m in
  let (err, m) :=
    mysql_renameTable false (Name replacementTable) targetTableName m in
  if dropOldTable && bool_decide (err1 = None) && bool_decide (err = None)
  then mysql_DropTable tmpTable true m
  else (err, m).

(** Modelled from the spec: [SQLAdapterBase.TruncateTable] is not among the
    files at hand.  Truncation empties the table and preserves its
    schema. *)
Definition mysql_TruncateTable (tableName : string) (m : MySQL)
  : option error * MySQL :=
  match tables m !! tableName with
  | Some td =>
      if rejects m (StmtTruncate tableName)
      then (Some (mkError TruncateError "failed to truncate table"), m)
      else (None,
            set_tables m
              (<[tableName := mkTableData (td_columns td) (td_pk td) []]>
                 (tables m)))
  | None => (Some (mkError TruncateError "failed to truncate table"), m)
  end.

(** The values of a row at the primary-key columns. *)
Definition key_of (pk : list string) (row : gmap string string)
  : list (option string) :=
  map (fun c => row !! c) pk.

(** [ON DUPLICATE KEY UPDATE]: a row with the key of an existing row
    replaces it, any other row is appended. *)
Fixpoint upsert (pk : list string) (rows : list (gmap string string))
         (row : gmap string string) : list (gmap string string) :=
  match rows with
  | [] => [row]
  | r :: rest =>
      if bool_decide (pk ≠ []) && bool_decide (key_of pk r = key_of pk row)
      then row :: rest
      else r :: upsert pk rest row
  end.

Definition insert_rows (mergeRows : bool) (td : TableData)
           (rows : list (gmap string string)) : TableData :=
  mkTableData (td_columns td) (td_pk td)
              (if mergeRows then fold_left (upsert (td_pk td)) rows (td_rows td)
               else td_rows td ++ rows)%list.

(** Modelled from the spec: [MySQL.CopyTables] hands over to [copy] and
    [copyOrMerge], which are not among the files at hand: an
    [INSERT ... SELECT], an upsert when [merge] is set. *)
Definition mysql_CopyTables (targetTable sourceTable : Table) (mergeRows : bool)
           (m : MySQL) : option error * MySQL :=
  match tables m !! Name targetTable, tables m !! Name sourceTable with
  | Some target, Some source =>
      if rejects m (StmtInsertSelect (Name targetTable) (Name sourceTable))
      then (Some (mkError CopyError "failed to copy table"), m)
      else (None,
            set_tables m
              (<[Name targetTable := insert_rows mergeRows target (td_rows source)]>
                 (tables m)))
  | _, _ => (Some (mkError CopyError "failed to copy table"), m)
  end.

(** [MySQL.LoadTable]: the two guards are those of the source; the load
    itself appends the rows of the file. *)
Definition mysql_LoadTable (targetTable : Table) (loadSource : LoadSource)
           (m : MySQL) : option error * MySQL :=
  if negb (bool_decide (SourceType loadSource = LocalFile))
  then (Some (mkError DriverError "LoadTable: only local file is supported"), m)
  else if negb (bool_decide (SourceFormat loadSource = mysqlBatchFileFormat m))
  then (Some (mkError DriverError "LoadTable: format is not supported"), m)
  else
    match tables m !! Name targetTable, files m !! SourcePath loadSource with
    | Some target, Some rows =>
        if rejects m (StmtLoad (Name targetTable))
        then (Some (mkError LoadError "failed to load table"), m)
        else (None,
              set_tables m
                (<[Name targetTable := insert_rows false target rows]> (tables m)))
    | _, _ => (Some (mkError LoadError "failed to load table"), m)
    end.

(** The column type the server records for a column created from its DDL. *)
Definition created_column (pkFields : gset string) (c : string * SQLColumn)
  : string * string :=
  let quoted := "`" +:+ fst c +:+ "`" in
  (fst c,
   String.substring (String.length quoted + 1)
                    (String.length (mySQLColumnDDL (fst c) quoted (snd c) pkFields))
                    (mySQLColumnDDL (fst c) quoted (snd c) pkFields)).

Definition created_columns (t : Table) (pkFields : gset string)
  : list (string * string) :=
  map (created_column pkFields) (map_to_list (Columns t)).

(** Modelled from the spec: the table helper is not among the files at
    hand.  [ensure_table] fetches the destination schema, creates the table
    when it is missing and otherwise patches it with the diff. *)
Definition mysql_EnsureTableWithoutCaching {cr : CaseRanges} (streamId : string)
           (target : Table) (m : MySQL) : res error Table * MySQL :=
  match mysql_GetTableSchema (Name target) m with
  | (Err e, m) => (Err e, m)
  | (Ok existing, m) =>
      if negb (Exists (Some existing)) then
        if rejects m (StmtCreate (Name target))
        then (Err (mkError CreateTableError "failed to create table"), m)
        else (Ok target,
              set_tables m
                (<[Name target :=
                     mkTableData (created_columns target (PKFields target))
                                 (elements (PKFields target)) []]> (tables m)))
      else
        let (entropy, m) := draw m in
        let diff := Diff existing (Some target) entropy in
        if negb (Exists (Some diff)) then (Ok existing, m)
        else if rejects m (StmtAlter (Name target))
        then (Err (mkError PatchTableError "failed to patch table"), m)
        else
          let pk :=
            if nonempty_set (PKFields diff) then PKFields diff
            else if DeletePkFields diff then ∅ else PKFields existing in
          let pkName :=
            if nonempty_set (PKFields diff) then PrimaryKeyName diff
            else if DeletePkFields diff then "" else PrimaryKeyName existing in
          match tables m !! Name target with
          | None => (Err (mkError PatchTableError "failed to patch table"), m)
          | Some td =>
              (Ok (mkTable (Name existing) (Temporary existing) (Cached existing)
                           (Columns existing ∪ Columns diff) pk pkName
                           (TimestampColumn existing) (Partition existing) false),
               set_tables m
                 (<[Name target :=
                      mkTableData (td_columns td ++ created_columns diff pk)%list
                                  (elements pk) (td_rows td)]> (tables m)))
          end
  end.

(** Modelled from the spec: the transaction wrapper is not among the files
    at hand.  The model keeps no undo log: commit and rollback succeed or
    fail and leave the tables as they are. *)
Definition mysql_Commit (m : MySQL) : option error * MySQL :=
  if rejects m StmtCommit
  then (Some (mkError CommitError "failed to commit"), m) else (None, m).

Definition mysql_Rollback (m : MySQL) : option error * MySQL :=
  if rejects m StmtRollback
  then (Some (mkError RollbackError "failed to rollback"), m) else (None, m).

Global Instance MySQL_adapter {cr : CaseRanges} : SQLAdapter MySQL := {
  GetTableSchema := mysql_GetTableSchema;
  TruncateTable := mysql_TruncateTable;
  ReplaceTable := mysql_ReplaceTable;
  CopyTables := mysql_CopyTables;
  LoadTable := mysql_LoadTable;
  DropTable := mysql_DropTable;
  EnsureTableWithoutCaching := mysql_EnsureTableWithoutCaching;
  Commit := mysql_Commit;
  Rollback := mysql_Rollback
}.

(** ** Sample worlds *)

(** The case table of the sample runs.  It lowers the two runes beyond
    ASCII whose lower case is an ASCII letter, U+0130 to [i] and the Kelvin
    sign U+212A to [k], and keeps every other rune. *)
Global Instance sample_case_ranges : CaseRanges :=
  fun r => if (r =? 304)%Z then 105%Z else if (r =? 8490)%Z then 107%Z else r.

(** A constraint name spelt with the Kelvin sign: [jitsu_p], the bytes
    [E2 84 AA] of U+212A, and [_x]. *)
Definition kelvin_pk_name : string :=
  "jitsu_p" +:+ String "226" (String "132" (String "170" "_x")).

Definition active_state (rows : Z) : State :=
  mkState Active None rows rows None.

Definition events_columns : list (string * string) :=
  [("id", "BIGINT"); ("name", "TEXT")].

Definition events_table (name : string) : Table :=
  mkTable name false false
          (list_to_map [("id", column_of_type "BIGINT");
                        ("name", column_of_type "TEXT")])
          ∅ "" "" no_partition false.

Definition old_row : gmap string string :=
  list_to_map [("id", "1"); ("name", "old")].
Definition new_row : gmap string string :=
  list_to_map [("id", "2"); ("name", "new")].

(** A ReplaceTable stream over [events] that has consumed [rows] rows into
    the side table [events_tmp_240101_000000]. *)
Definition replace_stream (rows : Z) (file : option string) (opened : bool)
  : Stream :=
  mkStream "s1" "events" false (active_state rows) file NDJSON
           (events_table "events_tmp_240101_000000") (events_table "events")
           opened.

(** A Batch stream over [events] with the temporary table [jitsu_tmp_ab12cd34]. *)
Definition batch_stream (rows : Z) (file : option string) (opened : bool)
  : Stream :=
  mkStream "s2" "events" true (active_state rows) file NDJSON
           (events_table "jitsu_tmp_ab12cd34") (events_table "events")
           opened.

(** A server that refuses to drop deprecated tables. *)
Definition refuses_deprecated_drop (s : Statement) : bool :=
  match s with
  | StmtDrop table => HasPrefix table "deprecated_"
  | _ => false
  end.

Definition accepts_all (s : Statement) : bool := false.

(** A server with the destination [events], the side table of
    [replace_stream] and the temporary table of [batch_stream], which holds
    the rows [staged]. *)
Definition server_with (staged : list (gmap string string))
           (rejected : Statement → bool) (readings : list string) : MySQL :=
  mkMySQL
    (list_to_map
       [("events", mkTableData events_columns [] [old_row]);
        ("events_tmp_240101_000000", mkTableData events_columns [] [new_row]);
        ("jitsu_tmp_ab12cd34", mkTableData events_columns [] staged)])
    (list_to_map [("bulker_s2", [new_row])])
    readings [[1; 2; 3]; [4; 5; 6]] rejected NDJSON.

Definition server : (Statement → bool) → list string → MySQL := server_with [].

Definition with_status (ps : Stream) (st : Status) : Stream :=
  set_state ps (mkState st (LastError (state ps)) (SuccessfulRows (state ps))
                        (ProcessedRows (state ps)) (Representation (state ps))).

(** The rows of a table, if the server has it. *)
Definition rows_of (m : MySQL) (table : string) : option (list (gmap string string)) :=
  td_rows <$> tables m !! table.

(** The worlds a successful Batch [Complete] of [batch_stream] goes through
    on the accepting server, and the destination table it ensures. *)
Definition batch_ps : Stream := batch_stream 1 (Some "bulker_s2") true.
Definition batch_w0 : MySQL := server accepts_all [].
Definition batch_w1 : MySQL :=
  snd (mysql_LoadTable (tmpTable batch_ps)
         (mkLoadSource LocalFile (batchFileFormat batch_ps) "bulker_s2") batch_w0).
Definition batch_dst : Table :=
  match fst (mysql_EnsureTableWithoutCaching (id batch_ps) (dstTable batch_ps)
               batch_w1) with
  | Ok t => t
  | Err _ => dstTable batch_ps
  end.
Definition batch_w2 : MySQL :=
  snd (mysql_EnsureTableWithoutCaching (id batch_ps) (dstTable batch_ps) batch_w1).
Definition batch_w3 : MySQL :=
  snd (mysql_CopyTables batch_dst (tmpTable batch_ps) (merge batch_ps) batch_w2).

(** ** Reading the outcome of a run *)

Definition returned_state {W} (r : State * option error * Stream * W * list Call)
  : State := fst (fst (fst (fst r))).
Definition returned_error {W} (r : State * option error * Stream * W * list Call)
  : option error := snd (fst (fst (fst r))).
Definition world_after {W} (r : State * option error * Stream * W * list Call)
  : W := snd (fst r).
Definition calls_of {W} (r : State * option error * Stream * W * list Call)
  : list Call := snd r.

(** The calls by which [postComplete] releases the temporary table and the
    batch file. *)
Definition release_calls (ps : Stream) : list Call :=
  ((if tx ps then [CallDropTable (Name (tmpTable ps)) true] else [])
   ++ match batchFile ps with
      | Some path => [CallRemoveFile path]
      | None => []
      end)%list.

(** The call that ends the transaction. *)
Definition closing_calls (ps : Stream) (err : option error) : list Call :=
  if tx ps
  then [match err with Some _ => CallRollback | None => CallCommit end]
  else [].

Definition flush_calls (ps : Stream) : list Call :=
  match batchFile ps with
  | Some path =>
      [CallLoadTable (tmpTable ps)
                     (mkLoadSource LocalFile (batchFileFormat ps) path)]
  | None => []
  end.

(** Flush, ensure and copy: the steps that move data. *)
Definition is_data_step (c : Call) : bool :=
  match c with
  | CallLoadTable _ _ | CallEnsureTable _ | CallCopyTables _ _ _ => true
  | _ => false
  end.

Definition is_replace (c : Call) : bool :=
  match c with
  | CallReplaceTable _ _ _ => true
  | _ => false
  end.

Definition is_truncate (c : Call) : bool :=
  match c with
  | CallTruncateTable _ => true
  | _ => false
  end.

(** A truncated table: same schema, no rows. *)
Definition emptied (td : TableData) : TableData :=
  mkTableData (td_columns td) (td_pk td) [].

(** ** More of the table model, the SQL type hints and the MySQL adapter *)

(** [SortedColumnNames]: the column names in the byte-wise alphabetical
    order of [sort.Strings]. *)
Definition SortedColumnNames (t : Table) : list string :=
  merge_sort String.le (map_to_list (Columns t)).*1.

(** [SQLTypes.WithDDL]: the receiver is the map the Go code updates. *)
Definition WithDDL (s : gmap string SQLColumn) (name sqlType ddlType : string)
  : gmap string SQLColumn :=
  if decide (sqlType = "") then s
  else if decide (ddlType = "")
       then <[name := mkSQLColumn sqlType sqlType true UNKNOWN false]> s
       else <[name := mkSQLColumn sqlType ddlType true UNKNOWN false]> s.

(** [SQLTypes.With]. *)
Definition With (s : gmap string SQLColumn) (name sqlType : string)
  : gmap string SQLColumn :=
  WithDDL s name sqlType "".

(** The fields of [DataSourceConfig] that the connection string reads.
    [Parameters] lists the map in the order in which [range] visits it. *)
Record DataSourceConfig := mkDataSourceConfig {
  Host : string;
  Port : Z;
  Db : string;
  Username : string;
  Password : string;
  Parameters : list (string * string)
}.

(** [mySQLDriverConnectionString].  [make([]string, 10)] is a slice of ten
    empty strings, to which the parameters are appended. *)
Definition mySQLDriverConnectionString (config : DataSourceConfig) : string :=
  let connectionString :=
    Username config +:+ ":" +:+ Password config +:+ "@tcp(" +:+ Host config
    +:+ ":" +:+ pretty (Port config) +:+ ")/" +:+ Db config in
  if bool_decide (0 < length (Parameters config))%nat then
    let paramList :=
      (replicate 10 "" ++ map (fun kv => fst kv +:+ "=" +:+ snd kv)
                              (Parameters config))%list in
    (connectionString +:+ "?") +:+ Join paramList "&"
  else connectionString.

(** A [time.Time]: seconds since January 1, year 1, 00:00:00 UTC and the
    nanoseconds within the second. *)
Record Time := mkTime { seconds : Z; nanoseconds : Z }.

Definition IsZero (t : Time) : bool :=
  bool_decide (seconds t = 0%Z) && bool_decide (nanoseconds t = 0%Z).

(** A value handed to the driver: a time or any other value. *)
Inductive ColumnValue : Type :=
| TimeValue (t : Time)
| OtherValue (v : value).

(** [mySQLMapColumnValue]; [time.Date(1, 1, 1, 0, 0, 0, 1, time.UTC)] is one
    nanosecond after the zero time. *)
Definition mySQLMapColumnValue (v : ColumnValue) (valuePresent : bool)
           (column : SQLColumn) : ColumnValue :=
  match v with
  | TimeValue datetime =>
      if IsZero datetime then TimeValue (mkTime 0 1) else v
  | _ => v
  end.

(** The [tmpTableFunc] of [newReplaceTableStream]: the side table, named
    after the destination and the formatted time [now]. *)
Definition ReplaceTableStream_tmpTable (tableName now : string)
           (tableForObject : Table) : Table :=
  mkTable (tableName +:+ "_tmp_" +:+ now) false false
          (Columns tableForObject) (PKFields tableForObject)
          (PrimaryKeyName tableForObject) "" no_partition false.

(** A flat map is settled when [flatten] would store each of its entries
    as it is: no mapping, nil only when nil values are kept, a sequence
    only under a key with the marker. *)
Definition settled_value (SqlTypeKeyword : string) (f : FlattenerImpl)
           (key : string) (v : value) : Prop :=
  match v with
  | VMap _ => False
  | VNil => omitNilValues f = false
  | VSlice _ => Contains key SqlTypeKeyword = true
  | _ => True
  end.

Definition settled (SqlTypeKeyword : string) (f : FlattenerImpl)
           (m : gmap string value) : Prop :=
  ∀ key v, m !! key = Some v → settled_value SqlTypeKeyword f key v.

(** All leaves of a value that land on the same key store the same. *)
Definition unambiguous (SqlTypeKeyword : string)
           (Marshal : value → option string) (f : FlattenerImpl)
           (root : value) : Prop :=
  ∀ p l p' l',
    Leaf p root l → Leaf p' root l' → path_key "" p = path_key "" p' →
    stored SqlTypeKeyword Marshal f (path_key "" p) l
    = stored SqlTypeKeyword Marshal f (path_key "" p) l'.

(** A server on which every primary-key query fails. *)
Definition rejects_primary_key_query (s : Statement) : bool :=
  match s with
  | StmtSelectPrimaryKeys _ => true
  | _ => false
  end.

(** A server on which every load fails, and one on which every schema
    lookup fails. *)
Definition rejects_load (s : Statement) : bool :=
  match s with
  | StmtLoad _ => true
  | _ => false
  end.

Definition rejects_schema_lookup (s : Statement) : bool :=
  match s with
  | StmtSelectColumns _ => true
  | _ => false
  end.

(** A ReplaceTable stream that is still active after an error on a row. *)
Definition errored_replace_stream : Stream :=
  set_state (replace_stream 2 None true)
            (mkState Active (Some (mkError LoadError "failed to load table"))
                     2 3 None).

(** The scenario record as another iteration order would list it. *)
Definition scenario_record_reordered : list (string * value) :=
  [("arr", VSlice [VInt 1; VInt 2]);
   ("c", VMap [("d", VMap [("e", VInt 3)])]);
   ("(b)", VInt 2); ("$a", VInt 1)].

(** One more entry in a destination map. *)
Definition store_entry (d : gmap string value) (kv : string * value)
  : gmap string value :=
  <[fst kv := snd kv]> d.
(** * Properties *)

(** ** Table diff *)

Lemma missing_columns_lookup (t another : gmap string SQLColumn) (n : string) :
  missing_columns t another !! n =
  match t !! n with
  | Some _ => None
  | None => another !! n
  end.
Proof.
  unfold missing_columns.
  apply (map_fold_weak_ind
           (fun (acc : gmap string SQLColumn) (m : gmap string SQLColumn) =>
              acc !! n = match t !! n with Some _ => None | None => m !! n end)).
  - rewrite !lookup_empty. by destruct (t !! n).
  - intros i x m r Hfresh IH.
    destruct (decide (i = n)) as [->|Hne].
    + destruct (t !! n) eqn:Htn; [done|].
      by rewrite !lookup_insert_eq.
    + destruct (t !! i) eqn:Hti.
      * rewrite IH. by rewrite lookup_insert_ne.
      * rewrite !lookup_insert_ne by done. exact IH.
Qed.

Lemma missing_columns_self (t : gmap string SQLColumn) : missing_columns t t = ∅.
Proof.
  apply map_eq. intros n. rewrite missing_columns_lookup, lookup_empty.
  by destruct (t !! n).
Qed.

(** Whatever follows the managed prefix, and whatever the case tables say,
    the lower-cased name starts with the prefix. *)
Lemma ToLower_managed_prefix {cr : CaseRanges} (rest : string) :
  HasPrefix (ToLower (BulkerManagedPkConstraintPrefix +:+ rest))
            BulkerManagedPkConstraintPrefix = true.
Proof.
  unfold ToLower.
  destruct (isASCII _); [reflexivity | vm_compute; reflexivity].
Qed.

Lemma generated_name_managed {cr : CaseRanges} (tableName : string)
      (entropy : list nat) :
  pk_not_managed (BuildConstraintName tableName entropy) = false.
Proof.
  unfold pk_not_managed. apply andb_false_iff. right.
  unfold BuildConstraintName. by rewrite ToLower_managed_prefix.
Qed.

Lemma nonempty_set_false (s : gset string) : nonempty_set s = false ↔ s = ∅.
Proof.
  unfold nonempty_set. rewrite bool_decide_eq_false.
  split; [apply dec_stable | tauto].
Qed.

Lemma nonempty_set_true (s : gset string) : nonempty_set s = true ↔ s ≠ ∅.
Proof. unfold nonempty_set. by rewrite bool_decide_eq_true. Qed.

(** A name is user-defined exactly when it is non-empty and does not start,
    case-insensitively, with the managed prefix. *)
Lemma pk_not_managed_true {cr : CaseRanges} (n : string) :
  pk_not_managed n = true ↔
  n ≠ "" ∧ HasPrefix (ToLower n) BulkerManagedPkConstraintPrefix = false.
Proof.
  unfold pk_not_managed.
  rewrite andb_true_iff, !negb_true_iff, bool_decide_eq_false. tauto.
Qed.

Lemma pk_not_managed_false {cr : CaseRanges} (n : string) :
  pk_not_managed n = false ↔
  n = "" ∨ HasPrefix (ToLower n) BulkerManagedPkConstraintPrefix = true.
Proof.
  unfold pk_not_managed.
  rewrite andb_false_iff, !negb_false_iff, bool_decide_eq_true. tauto.
Qed.

(** The columns of a diff are those of the incoming table that the current
    one misses, whenever the incoming table exists. *)
Lemma Diff_columns {cr : CaseRanges} (t another : Table) (entropy : list nat) :
  Exists (Some another) = true →
  Columns (Diff t (Some another) entropy)
  = missing_columns (Columns t) (Columns another).
Proof. intros Hex. unfold Diff. rewrite Hex. cbn. by repeat case_match. Qed.

Lemma Diff_columns_not_exists {cr : CaseRanges} (t another : Table) (entropy : list nat) :
  Exists (Some another) = false →
  Diff t (Some another) entropy = empty_diff t.
Proof. intros Hex. unfold Diff. by rewrite Hex. Qed.

Lemma not_exists_no_columns (t : Table) :
  Exists (Some t) = false → Columns t = ∅ ∧ PKFields t = ∅.
Proof.
  cbn. rewrite !orb_false_iff. intros [[Hc Hp] _]. split.
  - unfold nonempty_map in Hc. apply bool_decide_eq_false in Hc.
    by apply dec_stable.
  - by apply nonempty_set_false.
Qed.

(** C2 (as amended): a user-defined primary key is never reconfigured; a
    managed or unnamed one is reconfigured when the incoming table exists
    and the primary-key sets differ: the diff then carries the incoming set
    and a [jitsu_pk_] name, and asks to delete the old key exactly when the
    current table has one. *)
Theorem Diff_pk_reconfiguration {cr : CaseRanges} (current incoming : Table) (entropy : list nat) :
  (PrimaryKeyName current ≠ "" →
   HasPrefix (ToLower (PrimaryKeyName current))
             BulkerManagedPkConstraintPrefix = false →
   PKFields (Diff current (Some incoming) entropy) = ∅
   ∧ DeletePkFields (Diff current (Some incoming) entropy) = false
   ∧ PrimaryKeyName (Diff current (Some incoming) entropy) = "")
  ∧ (PrimaryKeyName current = ""
     ∨ HasPrefix (ToLower (PrimaryKeyName current))
                 BulkerManagedPkConstraintPrefix = true →
     Exists (Some incoming) = true →
     PKFields current ≠ PKFields incoming →
     PKFields (Diff current (Some incoming) entropy) = PKFields incoming
     ∧ HasPrefix (PrimaryKeyName (Diff current (Some incoming) entropy))
                 BulkerManagedPkConstraintPrefix = true
     ∧ (DeletePkFields (Diff current (Some incoming) entropy) = true
        ↔ PKFields current ≠ ∅)).
Proof.
  split.
  - intros Hne Hpre.
    assert (Hum : pk_not_managed (PrimaryKeyName current) = true)
      by (by apply pk_not_managed_true).
    unfold Diff. destruct (negb (Exists (Some incoming))); [done|].
    by rewrite Hum.
  - intros Hman Hex Hdiff.
    apply pk_not_managed_false in Hman.
    unfold Diff. rewrite Hex, Hman. cbn [negb].
    destruct (nonempty_set (PKFields current)) eqn:Hcur.
    + apply nonempty_set_true in Hcur.
      rewrite bool_decide_eq_false_2 by done. cbn.
      split_and!; [done|done|]. by split.
    + apply nonempty_set_false in Hcur.
      assert (Hinc : nonempty_set (PKFields incoming) = true).
      { apply nonempty_set_true. congruence. }
      rewrite Hinc. cbn.
      split_and!; [done|done|]. split; [done|]. intros Hc. by destruct Hc.
Qed.

Lemma Diff_pk_reconfiguration_witness :
  let current := pk_table "events" "jitsu_pk_ab12" ["id"; "v"] ["id"] in
  let incoming := pk_table "events" "" ["id"; "v"; "w"] ["id"; "v"] in
  (PrimaryKeyName current = ""
   ∨ HasPrefix (ToLower (PrimaryKeyName current))
               BulkerManagedPkConstraintPrefix = true)
  ∧ Exists (Some incoming) = true
  ∧ PKFields current ≠ PKFields incoming
  ∧ PKFields (Diff current (Some incoming) [7; 8])
    = PKFields incoming
  ∧ HasPrefix (PrimaryKeyName (Diff current (Some incoming) [7; 8]))
              BulkerManagedPkConstraintPrefix = true
  ∧ (DeletePkFields (Diff current (Some incoming) [7; 8]) = true
     ↔ PKFields current ≠ ∅).
Proof.
  intros current incoming.
  assert (H1 : PrimaryKeyName current = ""
               ∨ HasPrefix (ToLower (PrimaryKeyName current))
                           BulkerManagedPkConstraintPrefix = true)
    by (right; reflexivity).
  assert (H2 : Exists (Some incoming) = true) by (by vm_compute).
  assert (H3 : PKFields current ≠ PKFields incoming).
  { intros Heq. assert (Hin : "v" ∈ PKFields incoming) by (cbn; set_solver).
    rewrite <- Heq in Hin. cbn in Hin. set_solver. }
  refine (conj H1 (conj H2 (conj H3 _))).
  exact (proj2 (Diff_pk_reconfiguration current incoming [7; 8]) H1 H2 H3).
Defined.

(** C2 (as stated) fails when the incoming table does not exist: the diff is
    empty although the primary-key sets differ. *)
Lemma Diff_pk_ignores_missing_incoming :
  let current := pk_table "events" "jitsu_pk_ab12" ["id"] ["id"] in
  let incoming := pk_table "events" "" [] [] in
  (PrimaryKeyName current = ""
   ∨ HasPrefix (ToLower (PrimaryKeyName current))
               BulkerManagedPkConstraintPrefix = true)
  ∧ PKFields current ≠ PKFields incoming
  ∧ ¬ (PKFields (Diff current (Some incoming) [7; 8]) = PKFields incoming
       ∧ HasPrefix (PrimaryKeyName (Diff current (Some incoming) [7; 8]))
                   BulkerManagedPkConstraintPrefix = true
       ∧ (DeletePkFields (Diff current (Some incoming) [7; 8]) = true
          ↔ PKFields current ≠ ∅)).
Proof.
  intros current incoming.
  assert (Hd : Diff current (Some incoming) [7; 8] = empty_diff current).
  { apply Diff_columns_not_exists. by vm_compute. }
  split_and!.
  - right. reflexivity.
  - cbn. set_solver.
  - rewrite Hd. cbn. intros (_ & Hpre & _). discriminate Hpre.
Qed.

(** A constraint name spelt with the Kelvin sign is a managed name once the
    case table lowers U+212A to [k]: the guard lets the diff through and
    the key is reconfigured. *)
Lemma Diff_kelvin_name_is_managed :
  let current := pk_table "events" kelvin_pk_name ["id"; "v"] ["id"] in
  let incoming := pk_table "events" "" ["id"; "v"] ["id"; "v"] in
  isASCII kelvin_pk_name = false
  ∧ ToLower kelvin_pk_name = "jitsu_pk_x"
  ∧ pk_not_managed (PrimaryKeyName current) = false
  ∧ PKFields (Diff current (Some incoming) [7; 8]) = PKFields incoming
  ∧ DeletePkFields (Diff current (Some incoming) [7; 8]) = true.
Proof.
  intros current incoming.
  assert (Hman : pk_not_managed (PrimaryKeyName current) = false)
    by (vm_compute; reflexivity).
  assert (Hex : Exists (Some incoming) = true) by (by vm_compute).
  assert (Hcur : nonempty_set (PKFields current) = true).
  { apply nonempty_set_true. cbn. set_solver. }
  assert (Hne : PKFields current ≠ PKFields incoming).
  { intros Heq. assert (Hin : "v" ∈ PKFields incoming) by (cbn; set_solver).
    rewrite <- Heq in Hin. cbn in Hin. set_solver. }
  split_and!; [by vm_compute | by vm_compute | done | |];
    unfold Diff; rewrite Hex, Hman, Hcur; cbn [negb];
    by rewrite bool_decide_eq_false_2.
Qed.

Lemma Diff_columns_lookup {cr : CaseRanges} (A B : Table) (entropy : list nat) (n : string) :
  Columns (Diff A (Some B) entropy) !! n =
  match Columns A !! n with
  | Some _ => None
  | None => Columns B !! n
  end.
Proof.
  destruct (Exists (Some B)) eqn:Hex.
  - by rewrite Diff_columns, missing_columns_lookup.
  - rewrite Diff_columns_not_exists by done.
    apply not_exists_no_columns in Hex as [-> _].
    cbn. rewrite !lookup_empty. by destruct (Columns A !! n).
Qed.

(** C6: a diff of a table against itself is empty (no columns, no primary
    key, nothing to delete); a diff covers every column of the incoming
    table that the current one misses, names no column the current table
    already has, and takes its columns unchanged from the incoming table. *)
Theorem Diff_minimal_additive {cr : CaseRanges} (A B : Table) (entropy : list nat) :
  (Columns (Diff A (Some A) entropy) = ∅
   ∧ PKFields (Diff A (Some A) entropy) = ∅
   ∧ DeletePkFields (Diff A (Some A) entropy) = false)
  ∧ (∀ n, is_Some (Columns B !! n) →
          is_Some (Columns A !! n)
          ∨ is_Some (Columns (Diff A (Some B) entropy) !! n))
  ∧ (∀ n, is_Some (Columns A !! n) →
          Columns (Diff A (Some B) entropy) !! n = None)
  ∧ (∀ n c, Columns (Diff A (Some B) entropy) !! n = Some c →
            Columns B !! n = Some c).
Proof.
  split_and!.
  - apply map_eq. intros n. rewrite Diff_columns_lookup, lookup_empty.
    by destruct (Columns A !! n).
  - unfold Diff. destruct (negb (Exists (Some A))); [done|].
    destruct (pk_not_managed (PrimaryKeyName A)); [done|].
    destruct (nonempty_set (PKFields A)); [|done].
    by rewrite bool_decide_eq_true_2.
  - unfold Diff. destruct (negb (Exists (Some A))); [done|].
    destruct (pk_not_managed (PrimaryKeyName A)); [done|].
    destruct (nonempty_set (PKFields A)); [|done].
    by rewrite bool_decide_eq_true_2.
  - intros n HB. rewrite Diff_columns_lookup.
    destruct (Columns A !! n); [left; eauto | by right].
  - intros n [c Hc]. by rewrite Diff_columns_lookup, Hc.
  - intros n c. rewrite Diff_columns_lookup.
    by destruct (Columns A !! n).
Qed.

Lemma Diff_minimal_additive_witness :
  let A := pk_table "events" "jitsu_pk_ab12" ["id"; "v"] ["id"] in
  let B := pk_table "events" "" ["id"; "w"] ["id"] in
  is_Some (Columns B !! "w")
  ∧ (is_Some (Columns A !! "w")
     ∨ is_Some (Columns (Diff A (Some B) [1; 2]) !! "w"))
  ∧ is_Some (Columns A !! "v")
  ∧ Columns (Diff A (Some B) [1; 2]) !! "v" = None.
Proof.
  intros A B.
  assert (HB : is_Some (Columns B !! "w")) by (by vm_compute; eauto).
  assert (HA : is_Some (Columns A !! "v")) by (by vm_compute; eauto).
  refine (conj HB (conj _ (conj HA _))).
  - exact (proj1 (proj2 (Diff_minimal_additive A B [1; 2])) "w" HB).
  - exact (proj1 (proj2 (proj2 (Diff_minimal_additive A B [1; 2]))) "v" HA).
Defined.

(** ** MySQL column DDL *)

(** C9: the DDL of a primary-key column whose resolved type is [TEXT] says
    [VARCHAR(255)]; every other column keeps its resolved DDL type. *)
Theorem mySQLColumnDDL_pk_text (name quotedName : string) (column : SQLColumn)
        (pkFields : gset string) :
  mySQLColumnDDL name quotedName column pkFields =
  quotedName +:+ " " +:+
    (if bool_decide (name ∈ pkFields ∧ GetDDLType column = "TEXT")
     then "VARCHAR(255)" else GetDDLType column).
Proof.
  unfold mySQLColumnDDL, mySQLPrimaryKeyTypesMapping.
  destruct (decide (name ∈ pkFields)) as [Hin|Hout].
  - destruct (decide (GetDDLType column = "TEXT")) as [->|Hty].
    + rewrite lookup_singleton_eq. by rewrite bool_decide_eq_true_2.
    + rewrite lookup_singleton_ne by done.
      rewrite bool_decide_eq_false_2; [done|]. tauto.
  - rewrite bool_decide_eq_false_2; [done|]. tauto.
Qed.

(** ** Flattener *)

Section value_induction.

Variable P : value → Prop.
Hypothesis HNil : P VNil.
Hypothesis HBool : ∀ b, P (VBool b).
Hypothesis HInt : ∀ n, P (VInt n).
Hypothesis HFloat : ∀ lit, P (VFloat lit).
Hypothesis HStr : ∀ s, P (VStr s).
Hypothesis HSlice : ∀ items, Forall P items → P (VSlice items).
Hypothesis HMap : ∀ fields, Forall (fun kv => P (snd kv)) fields → P (VMap fields).

Lemma value_ind (v : value) : P v.
Proof.
  revert v. fix IH 1. intros [| b | n | lit | s | items | fields].
  - exact HNil.
  - apply HBool.
  - apply HInt.
  - apply HFloat.
  - apply HStr.
  - apply HSlice. induction items as [|x items IHitems]; constructor.
    + apply IH.
    + exact IHitems.
  - apply HMap. induction fields as [|[k x] fields IHfields]; constructor.
    + apply IH.
    + exact IHfields.
Qed.

End value_induction.

Section FlattenerFacts.

Variable SqlTypeKeyword : string.
Variable Marshal : value → option string.
Variable f : FlattenerImpl.

Local Abbreviation flatten' := (flatten SqlTypeKeyword Marshal f).
Local Abbreviation flatten_fields' := (flatten_fields SqlTypeKeyword Marshal f).
Local Abbreviation stored' := (stored SqlTypeKeyword Marshal f).

Lemma flatten_VMap (key : string) (fields : list (string * value))
      (d : gmap string value) :
  flatten' key (VMap fields) d = flatten_fields' key fields d.
Proof.
  revert d. induction fields as [|[k v] rest IH]; intros d; [done|].
  cbn. destruct (flatten' (child_key key k) v d) as [d1|]; [|done].
  exact (IH d1).
Qed.

Lemma Leaf_not_map (v : value) (p : list string) (l : value) :
  (∀ fields, v ≠ VMap fields) → Leaf p v l → p = [] ∧ l = v.
Proof. intros Hv HL. inversion HL; subst; [done|]. by destruct (Hv fields). Qed.

Lemma Leaf_map_inv (fields : list (string * value)) (p : list string) (l : value) :
  Leaf p (VMap fields) l →
  ∃ k v p', p = k :: p' ∧ In (k, v) fields ∧ Leaf p' v l.
Proof.
  intros HL. inversion HL; subst.
  - by destruct (H fields).
  - eauto 10.
Qed.

Lemma overwritten_twice (x old : option value) :
  overwritten x (overwritten x old) = overwritten x old.
Proof. by destruct x. Qed.

(** What one non-mapping value does to the destination. *)
Lemma flatten_leaf_value (v : value) (key : string) (d d' : gmap string value) :
  (∀ fields, v ≠ VMap fields) →
  flatten' key v d = Ok d' →
  d' !! key = overwritten (stored' key v) (d !! key)
  ∧ ∀ k0, k0 ≠ key → d' !! k0 = d !! k0.
Proof.
  intros Hv Hf.
  destruct v as [| b | n | lit | s | items | fields];
    cbn in Hf; unfold stored; cbn.
  - destruct (omitNilValues f); cbn in Hf; inversion Hf; subst; [done|].
    split; [by rewrite lookup_insert_eq|]. intros; by rewrite lookup_insert_ne.
  - inversion Hf; subst.
    split; [by rewrite lookup_insert_eq|]. intros; by rewrite lookup_insert_ne.
  - rewrite orb_true_r in Hf. inversion Hf; subst.
    split; [by rewrite lookup_insert_eq|]. intros; by rewrite lookup_insert_ne.
  - rewrite orb_true_r in Hf. inversion Hf; subst.
    split; [by rewrite lookup_insert_eq|]. intros; by rewrite lookup_insert_ne.
  - rewrite orb_true_r in Hf. inversion Hf; subst.
    split; [by rewrite lookup_insert_eq|]. intros; by rewrite lookup_insert_ne.
  - destruct (Contains key SqlTypeKeyword).
    + inversion Hf; subst.
      split; [by rewrite lookup_insert_eq|]. intros; by rewrite lookup_insert_ne.
    + destruct (Marshal (VSlice items)) as [b|]; [|done].
      inversion Hf; subst. cbn.
      split; [by rewrite lookup_insert_eq|]. intros; by rewrite lookup_insert_ne.
  - by destruct (Hv fields).
Qed.

Lemma lookup_after_leaf (v : value) (key : string) :
  (∀ fields, v ≠ VMap fields) → lookup_after SqlTypeKeyword Marshal f key v.
Proof.
  intros Hv d d' k0 x0 Hf Hagree.
  destruct (flatten_leaf_value v key d d' Hv Hf) as [Hk Hother].
  assert (HL : Leaf [] v v) by by constructor.
  destruct (decide (k0 = key)) as [->|Hne].
  - right. split; [|by exists [], v].
    by rewrite Hk, (Hagree [] v HL eq_refl).
  - left. split; [by apply Hother|].
    intros p l HL'. apply (Leaf_not_map v p l Hv) in HL' as [-> _]. by cbn.
Qed.

Lemma flatten_lookup (v : value) : ∀ key, lookup_after SqlTypeKeyword Marshal f key v.
Proof.
  induction v as [| b | n | lit | s | items _ | fields H] using value_ind;
    intros key; try (apply lookup_after_leaf; intros; discriminate).
  intros d d' k0 x0 Hf Hagree. rewrite flatten_VMap in Hf.
  revert d Hf Hagree.
  induction fields as [|[k v] rest IHrest]; intros d Hf Hagree.
  - cbn in Hf. inversion Hf; subst. left. split; [done|].
    intros p l HL. apply Leaf_map_inv in HL as (? & ? & ? & _ & [] & _).
  - cbn [flatten_fields] in Hf.
    destruct (flatten' (child_key key k) v d) as [d1|] eqn:Hhead; [|done].
    apply Forall_cons in H as [Hv Hrest]. cbn in Hv.
    assert (Hagree_head : ∀ p l, Leaf p v l →
              path_key (child_key key k) p = k0 → stored' k0 l = x0).
    { intros p l HL Hk. apply (Hagree (k :: p) l); [|done].
      econstructor; [|done]. by left. }
    assert (Hagree_rest : ∀ p l, Leaf p (VMap rest) l →
              path_key key p = k0 → stored' k0 l = x0).
    { intros p l HL Hk.
      apply Leaf_map_inv in HL as (k' & v' & p' & -> & Hin & HL).
      apply (Hagree (k' :: p') l); [|done].
      econstructor; [|done]. by right. }
    specialize (Hv (child_key key k) d d1 k0 x0 Hhead Hagree_head).
    specialize (IHrest Hrest d1 Hf Hagree_rest).
    destruct IHrest as [[Heq Hnone]|[Heq (p & l & HL & Hk)]].
    + destruct Hv as [[Heq1 Hnone1]|[Heq1 (p1 & l1 & HL1 & Hk1)]].
      * left. split; [congruence|].
        intros p l HL.
        apply Leaf_map_inv in HL as (k' & v' & p' & -> & [Hin|Hin] & HL).
        -- inversion Hin; subst. exact (Hnone1 p' l HL).
        -- apply (Hnone (k' :: p') l). by econstructor.
      * right. split; [congruence|].
        exists (k :: p1), l1. split; [|done]. econstructor; [|done]. by left.
    + right. split.
      * destruct Hv as [[Heq1 _]|[Heq1 _]]; rewrite Heq, Heq1; [done|].
        apply overwritten_twice.
      * apply Leaf_map_inv in HL as (k' & v' & p' & -> & Hin & HL).
        exists (k' :: p'), l. split; [|done]. econstructor; [|done]. by right.
Qed.

Lemma flatten_keeps_leaf (v : value) (key : string)
      (d d' : gmap string value) (k : string) :
  (∀ fields, v ≠ VMap fields) →
  flatten' key v d = Ok d' → is_Some (d !! k) → is_Some (d' !! k).
Proof.
  intros Hv Hf Hk.
  destruct (flatten_leaf_value v key d d' Hv Hf) as [Hkey Hother].
  destruct (decide (k = key)) as [->|Hne]; [|by rewrite Hother].
  rewrite Hkey. unfold overwritten. case_match; [eauto | exact Hk].
Qed.

(** [flatten] never removes an entry. *)
Lemma flatten_keeps (v : value) :
  ∀ key (d d' : gmap string value) k,
    flatten' key v d = Ok d' → is_Some (d !! k) → is_Some (d' !! k).
Proof.
  induction v as [| b | n | lit | s | items _ | fields H] using value_ind;
    intros key d d' k;
    try (apply flatten_keeps_leaf; intros; discriminate).
  intros Hf Hk. rewrite flatten_VMap in Hf. revert d Hf Hk.
  induction fields as [|[k0 v0] rest IHrest]; intros d Hf Hk.
  - by injection Hf as <-.
  - cbn [flatten_fields] in Hf.
    destruct (flatten' (child_key key k0) v0 d) as [d1|] eqn:Hhead; [|done].
    apply Forall_cons in H as [Hv Hrest]. cbn in Hv.
    apply (IHrest Hrest d1 Hf). by apply (Hv _ _ _ _ Hhead).
Qed.

Lemma flatten_key_present_leaf (v : value) (key : string)
      (d d' : gmap string value) :
  (∀ fields, v ≠ VMap fields) →
  flatten' key v d = Ok d' →
  (omitNilValues f = true → v ≠ VNil) →
  is_Some (d' !! key).
Proof.
  intros Hv Hf Hnil.
  destruct v as [| b | n | lit | s | items | fields]; cbn in Hf;
    rewrite ?orb_true_r in Hf.
  - destruct (omitNilValues f); [by destruct Hnil|].
    cbn in Hf. injection Hf as <-. rewrite lookup_insert_eq. eauto.
  - injection Hf as <-. rewrite lookup_insert_eq. eauto.
  - injection Hf as <-. rewrite lookup_insert_eq. eauto.
  - injection Hf as <-. rewrite lookup_insert_eq. eauto.
  - injection Hf as <-. rewrite lookup_insert_eq. eauto.
  - destruct (Contains key SqlTypeKeyword).
    + injection Hf as <-. rewrite lookup_insert_eq. eauto.
    + destruct (Marshal (VSlice items)); [|done].
      injection Hf as <-. rewrite lookup_insert_eq. eauto.
  - by destruct (Hv fields).
Qed.

(** Every leaf for which something is stored has its key in the result. *)
Lemma flatten_key_present (v : value) :
  ∀ key (d d' : gmap string value) p l,
    flatten' key v d = Ok d' → Leaf p v l →
    (omitNilValues f = true → l ≠ VNil) →
    is_Some (d' !! path_key key p).
Proof.
  induction v as [| b | n | lit | s | items _ | fields H] using value_ind;
    intros key d d' p l Hf HL Hnil;
    try (apply Leaf_not_map in HL as [-> ->]; [|intros; discriminate];
         eapply flatten_key_present_leaf; [|exact Hf|exact Hnil];
         intros; discriminate).
  rewrite flatten_VMap in Hf.
  apply Leaf_map_inv in HL as (k & v & p' & -> & Hin & HL).
  change (path_key key (k :: p')) with (path_key (child_key key k) p').
  revert d Hf.
  induction fields as [|[k0 v0] rest IHrest]; intros d Hf; [by destruct Hin|].
  cbn [flatten_fields] in Hf.
  destruct (flatten' (child_key key k0) v0 d) as [d1|] eqn:Hhead; [|done].
  apply Forall_cons in H as [Hv Hrest]. cbn in Hv.
  destruct Hin as [[= -> ->]|Hin].
  - rewrite <- flatten_VMap in Hf.
    apply (flatten_keeps _ _ _ _ _ Hf). by apply (Hv _ _ _ _ _ Hhead HL).
  - by apply (IHrest Hrest Hin d1).
Qed.

End FlattenerFacts.

Lemma append_cons (c : ascii) (s t : string) :
  String c s +:+ t = String c (s +:+ t).
Proof. reflexivity. Qed.

Lemma append_assoc (s t u : string) : (s +:+ t) +:+ u = s +:+ (t +:+ u).
Proof.
  induction s as [|c s IH]; [done|].
  by rewrite !append_cons, IH.
Qed.

Lemma append_nonempty (s t : string) : s ≠ "" → s +:+ t ≠ "".
Proof. destruct s; [done|]. by rewrite append_cons. Qed.

(** Below a non-empty key the flattener joins the path with underscores. *)
Lemma path_key_join (key : string) (path : list string) :
  key ≠ "" → path_key key path = Join (key :: path) "_".
Proof.
  revert key. induction path as [|k rest IH]; intros key Hkey; [done|].
  unfold path_key in *. cbn [fold_left].
  unfold child_key at 2. rewrite decide_False by done.
  rewrite IH by (by apply append_nonempty).
  unfold Join. cbn [String.concat].
  destruct rest as [|k' rest]; by rewrite ?append_assoc.
Qed.

Lemma path_key_join_top (path : list string) :
  hd "" path ≠ "" → path_key "" path = Join path "_".
Proof.
  destruct path as [|k rest]; [done|]. cbn [hd]. intros Hk.
  unfold path_key. cbn [fold_left]. unfold child_key at 2.
  rewrite decide_True by done. by apply path_key_join.
Qed.

Section FlattenerTotal.

Variable SqlTypeKeyword : string.
Variable Marshal : value → option string.
Variable f : FlattenerImpl.
Hypothesis Marshal_total : ∀ v, is_Some (Marshal v).

(** With an encoder that never fails, [flatten] never fails. *)
Lemma flatten_total (v : value) :
  ∀ key d, ∃ d', flatten SqlTypeKeyword Marshal f key v d = Ok d'.
Proof.
  induction v as [| b | n | lit | s | items _ | fields H] using value_ind;
    intros key d; cbn; rewrite ?orb_true_r; eauto.
  - destruct (omitNilValues f); cbn; eauto.
  - destruct (Contains key SqlTypeKeyword); eauto.
    destruct (Marshal_total (VSlice items)) as [b ->]. eauto.
  - change (∃ d', flatten SqlTypeKeyword Marshal f key (VMap fields) d = Ok d').
    rewrite flatten_VMap. revert d.
    induction fields as [|[k v] rest IH]; intros d; cbn; eauto.
    apply Forall_cons in H as [Hv Hrest]. cbn in Hv.
    destruct (Hv (child_key key k) d) as [d1 ->]. by apply IH.
Qed.

Lemma FlattenObject_total (json : list (string * value)) :
  ∃ m, FlattenObject SqlTypeKeyword Marshal f json = Ok m.
Proof.
  unfold FlattenObject.
  destruct (flatten_total (VMap json) "" ∅) as [d ->].
  destruct (d !! ""); eauto.
Qed.

End FlattenerTotal.

Lemma sample_marshal_total (v : value) : is_Some (sample_marshal v).
Proof. unfold sample_marshal. eauto. Qed.

(** C7 (as amended): after flattening a record with the default flattener,
    every leaf that is not nil and whose top-level key is not empty has its
    path joined by underscores among the keys; when the leaves that land on
    that key agree, the entry is the leaf itself for a scalar, absent for
    nil, the JSON text for a sequence, and the sequence untouched when the
    key contains the SQL-type marker. *)
Theorem flatten_leaf_keys (SqlTypeKeyword : string)
        (Marshal : value → option string)
        (record : list (string * value)) (m : gmap string value)
        (path : list string) (l : value) :
  flatten SqlTypeKeyword Marshal NewFlattener "" (VMap record) ∅ = Ok m →
  Leaf path (VMap record) l →
  hd "" path ≠ "" →
  (l ≠ VNil → is_Some (m !! Join path "_"))
  ∧ ((∀ path' l', Leaf path' (VMap record) l' →
                  path_key "" path' = path_key "" path → l' = l) →
     m !! Join path "_" =
     match l with
     | VNil => None
     | VSlice _ =>
         if Contains (Join path "_") SqlTypeKeyword then Some l
         else VStr <$> Marshal l
     | _ => Some l
     end).
Proof.
  intros Hf HL Hhd.
  rewrite <- (path_key_join_top path Hhd).
  set (k0 := path_key "" path) in *.
  split.
  - intros Hnil.
    by apply (flatten_key_present SqlTypeKeyword Marshal NewFlattener
                (VMap record) "" ∅ m path l Hf HL).
  - intros Huniq.
    destruct (flatten_lookup SqlTypeKeyword Marshal NewFlattener (VMap record) ""
                ∅ m k0 (stored SqlTypeKeyword Marshal NewFlattener k0 l) Hf)
      as [[_ Hnone]|[Hm _]].
    + intros p l' HL' Hk. by rewrite (Huniq p l' HL' Hk).
    + by destruct (Hnone path l HL).
    + rewrite Hm, lookup_empty. unfold stored. cbn.
      destruct l as [| | | | | items |]; try done.
      destruct (Contains k0 SqlTypeKeyword); [done|].
      by destruct (Marshal (VSlice items)).
Qed.

Ltac leaf_cases :=
  repeat match goal with
         | H : Leaf _ (VMap _) _ |- _ =>
             apply Leaf_map_inv in H as (? & ? & ? & -> & ? & ?)
         | H : In _ (_ :: _) |- _ =>
             destruct H as [H|H]; [inversion H; subst; clear H|]
         | H : In _ [] |- _ => destruct H
         | H : Leaf _ (VInt _) _ |- _ =>
             apply Leaf_not_map in H as [-> ->]; [|discriminate]
         | H : Leaf _ (VSlice _) _ |- _ =>
             apply Leaf_not_map in H as [-> ->]; [|discriminate]
         end.

Lemma flatten_leaf_keys_witness :
  flatten sample_keyword sample_marshal NewFlattener "" (VMap scenario_record) ∅
  = Ok (list_to_map [("$a", VInt 1); ("(b)", VInt 2); ("c_d_e", VInt 3);
                     ("arr", VStr "[1,2]")])
  ∧ Leaf ["arr"] (VMap scenario_record) (VSlice [VInt 1; VInt 2])
  ∧ hd "" ["arr"] ≠ ""
  ∧ (∀ path' l', Leaf path' (VMap scenario_record) l' →
                 path_key "" path' = path_key "" ["arr"] →
                 l' = VSlice [VInt 1; VInt 2])
  ∧ (list_to_map [("$a", VInt 1); ("(b)", VInt 2); ("c_d_e", VInt 3);
                  ("arr", VStr "[1,2]")] : gmap string value)
      !! Join ["arr"] "_"
    = if Contains (Join ["arr"] "_") sample_keyword
      then Some (VSlice [VInt 1; VInt 2])
      else VStr <$> sample_marshal (VSlice [VInt 1; VInt 2]).
Proof.
  assert (H1 : flatten sample_keyword sample_marshal NewFlattener ""
                       (VMap scenario_record) ∅
               = Ok (list_to_map [("$a", VInt 1); ("(b)", VInt 2);
                                  ("c_d_e", VInt 3); ("arr", VStr "[1,2]")]))
    by (vm_compute; reflexivity).
  assert (H2 : Leaf ["arr"] (VMap scenario_record) (VSlice [VInt 1; VInt 2])).
  { econstructor; [|by constructor]. cbn. tauto. }
  assert (H3 : hd "" ["arr"] ≠ "") by done.
  assert (H4 : ∀ path' l', Leaf path' (VMap scenario_record) l' →
                 path_key "" path' = path_key "" ["arr"] →
                 l' = VSlice [VInt 1; VInt 2]).
  { intros path' l' HL Hk. unfold scenario_record in HL.
    leaf_cases; try discriminate Hk. reflexivity. }
  refine (conj H1 (conj H2 (conj H3 (conj H4 _)))).
  exact (proj2 (flatten_leaf_keys sample_keyword sample_marshal scenario_record
                  _ ["arr"] (VSlice [VInt 1; VInt 2]) H1 H2 H3) H4).
Defined.

(** C7 (as stated) fails below an empty top-level key: the leaf at path
    ["", "a"] is stored under "a", not under the joined path "_a". *)
Lemma flatten_drops_empty_top_key :
  Leaf [""; "a"] (VMap [("", VMap [("a", VInt 1)])]) (VInt 1)
  ∧ Join [""; "a"] "_" = "_a"
  ∧ flatten sample_keyword sample_marshal NewFlattener ""
            (VMap [("", VMap [("a", VInt 1)])]) ∅
    = Ok {[ "a" := VInt 1 ]}
  ∧ ({[ "a" := VInt 1 ]} : gmap string value) !! Join [""; "a"] "_" = None.
Proof.
  split_and!.
  - econstructor; [by left|]. econstructor; [by left|]. by constructor.
  - reflexivity.
  - vm_compute. reflexivity.
  - vm_compute. reflexivity.
Qed.

(** C1 (as amended): [FlattenObject] knows no key-collision error: with an
    encoder that never fails it always returns a flat map; the flat map has
    no empty key, and what [flatten] left under the empty key is found
    under [_unnamed]; on the scenario record it yields [c_d_e=3] and
    [arr="[1,2]"]. *)
Theorem FlattenObject_no_collision_error (SqlTypeKeyword : string)
        (Marshal : value → option string) (f : FlattenerImpl)
        (record : list (string * value)) :
  ((∀ v, is_Some (Marshal v)) →
   ∃ m, FlattenObject SqlTypeKeyword Marshal f record = Ok m)
  ∧ (∀ m, FlattenObject SqlTypeKeyword Marshal f record = Ok m →
          m !! "" = None)
  ∧ (∀ d v, flatten SqlTypeKeyword Marshal f "" (VMap record) ∅ = Ok d →
            d !! "" = Some v →
            ∃ m, FlattenObject SqlTypeKeyword Marshal f record = Ok m
                 ∧ m !! "_unnamed" = Some v)
  ∧ (Contains "arr" SqlTypeKeyword = false →
     Marshal (VSlice [VInt 1; VInt 2]) = Some "[1,2]" →
     ∃ m, FlattenObject SqlTypeKeyword Marshal NewFlattener scenario_record
          = Ok m
          ∧ m !! "c_d_e" = Some (VInt 3)
          ∧ m !! "arr" = Some (VStr "[1,2]")).
Proof.
  split_and!.
  - intros Htotal. by apply FlattenObject_total.
  - intros m. unfold FlattenObject.
    destruct (flatten _ _ _ _ _ _) as [d|]; [|done].
    destruct (d !! "") eqn:Hd; intros [= <-]; [|done].
    apply lookup_delete_eq.
  - intros d v Hf Hd. unfold FlattenObject. rewrite Hf, Hd.
    eexists. split; [done|].
    rewrite lookup_delete_ne by done. apply lookup_insert_eq.
  - intros Hmarker Henc. unfold FlattenObject, scenario_record.
    cbn -[Contains].
    replace (child_key "" "arr") with "arr" by (by vm_compute).
    rewrite Hmarker, Henc.
    match goal with
    | |- context [Ok ?d] =>
        assert (Hempty : d !! "" = None) by (by vm_compute);
        rewrite Hempty; exists d
    end.
    split; [reflexivity|]. by vm_compute.
Qed.

Lemma FlattenObject_no_collision_error_witness :
  (∀ v, is_Some (sample_marshal v))
  ∧ Contains "arr" sample_keyword = false
  ∧ sample_marshal (VSlice [VInt 1; VInt 2]) = Some "[1,2]"
  ∧ (∃ m, FlattenObject sample_keyword sample_marshal NewFlattener
                        scenario_record = Ok m)
  ∧ (∃ m, FlattenObject sample_keyword sample_marshal NewFlattener
                        scenario_record = Ok m
          ∧ m !! "c_d_e" = Some (VInt 3)
          ∧ m !! "arr" = Some (VStr "[1,2]")).
Proof.
  assert (H1 : Contains "arr" sample_keyword = false) by reflexivity.
  assert (H2 : sample_marshal (VSlice [VInt 1; VInt 2]) = Some "[1,2]")
    by reflexivity.
  refine (conj sample_marshal_total (conj H1 (conj H2 (conj _ _)))).
  - exact (proj1 (FlattenObject_no_collision_error sample_keyword
                    sample_marshal NewFlattener scenario_record)
                 sample_marshal_total).
  - exact (proj2 (proj2 (proj2
             (FlattenObject_no_collision_error sample_keyword sample_marshal
                NewFlattener scenario_record))) H1 H2).
Defined.

(** C1 (as stated) fails: two leaves that land on the flat key [a_b] are
    accepted without an error, and the scenario record keeps the keys
    [$a] and [(b)]. *)
Lemma FlattenObject_accepts_colliding_keys :
  FlattenObject sample_keyword sample_marshal NewFlattener
                [("a_b", VInt 1); ("a", VMap [("b", VInt 2)])]
  = Ok {[ "a_b" := VInt 2 ]}
  ∧ FlattenObject sample_keyword sample_marshal NewFlattener scenario_record
    = Ok (list_to_map [("$a", VInt 1); ("(b)", VInt 2); ("c_d_e", VInt 3);
                       ("arr", VStr "[1,2]")])
  ∧ (list_to_map [("$a", VInt 1); ("(b)", VInt 2); ("c_d_e", VInt 3);
                  ("arr", VStr "[1,2]")] : gmap string value) !! "_a" = None.
Proof. split_and!; vm_compute; reflexivity. Qed.

(** ** Streams *)

Section StreamFacts.

Context {W : Type} {adapter : SQLAdapter W}.

Ltac eff_unfold :=
  unfold run, bind, call, ret, returned_state, returned_error, world_after,
    calls_of in *.

(** [postComplete] adds the release calls and the closing call to the log:
    a rollback when an error is pending, a commit otherwise. *)
Lemma postComplete_calls (ps : Stream) (err : option error) (w : W)
      (log : list Call) :
  calls_of (postComplete ps err w log)
  = (log ++ release_calls ps ++ closing_calls ps (pending_error ps err))%list.
Proof.
  unfold postComplete, release_calls, closing_calls. eff_unfold.
  destruct (tx ps), (batchFile ps), (pending_error ps err);
    repeat (match goal with
            | |- context [DropTable ?n ?b ?w] => destruct (DropTable n b w)
            | |- context [Rollback ?w] => destruct (Rollback w)
            | |- context [Commit ?w] => destruct (Commit w)
            end; cbn);
    cbn; rewrite <- ?app_assoc; cbn; by rewrite ?app_nil_r.
Qed.

Lemma pending_error_none (ps : Stream) (err : option error) :
  LastError (state ps) = None → pending_error ps err = err.
Proof. intros Hnone. unfold pending_error. rewrite Hnone. by destruct err. Qed.

(** A pending error is returned and fails the stream. *)
Lemma postComplete_pending (ps : Stream) (err : option error) (e : error)
      (w : W) (log : list Call) :
  pending_error ps err = Some e →
  returned_error (postComplete ps err w log) = Some e
  ∧ StreamStatus (returned_state (postComplete ps err w log)) = Failed.
Proof.
  intros Hpending. unfold postComplete. eff_unfold. rewrite Hpending.
  destruct (tx ps), (batchFile ps);
    repeat (match goal with
            | |- context [DropTable ?n ?b ?w] => destruct (DropTable n b w)
            | |- context [Rollback ?w] => destruct (Rollback w)
            end; cbn);
    by cbn.
Qed.

Lemma postComplete_error (ps : Stream) (e : error) (w : W) (log : list Call) :
  returned_error (postComplete ps (Some e) w log) = Some e
  ∧ StreamStatus (returned_state (postComplete ps (Some e) w log)) = Failed.
Proof. by apply postComplete_pending. Qed.

Lemma postComplete_no_error_closed (ps : Stream) (w : W) (log : list Call) :
  LastError (state ps) = None →
  tx ps = false →
  returned_error (postComplete ps None w log) = None
  ∧ world_after (postComplete ps None w log) = w.
Proof.
  intros Hnone Htx. unfold postComplete, pending_error. eff_unfold.
  rewrite Hnone, Htx. by destruct (batchFile ps).
Qed.

(** Without a pending error [postComplete] returns what the commit
    returns. *)
Lemma postComplete_commit (ps : Stream) (w : W) (log : list Call) :
  LastError (state ps) = None →
  tx ps = true →
  returned_error (postComplete ps None w log)
  = fst (Commit (snd (DropTable (Name (tmpTable ps)) true w))).
Proof.
  intros Hnone Htx. unfold postComplete, pending_error. eff_unfold.
  rewrite Hnone, Htx.
  destruct (DropTable _ _ w) as [d w1]. cbn.
  destruct (batchFile ps); cbn; by destruct (Commit w1) as [[c|] w2].
Qed.

Lemma Complete_transactional_unfold (ps : Stream) (w : W) :
  StreamStatus (state ps) = Active →
  run (TransactionalStream_Complete ps) w
  = postComplete (snd (fst (fst (TransactionalStream_body ps w []))))
                 (fst (fst (fst (TransactionalStream_body ps w []))))
                 (snd (fst (TransactionalStream_body ps w [])))
                 (snd (TransactionalStream_body ps w [])).
Proof.
  intros Hact. unfold TransactionalStream_Complete, run, bind.
  rewrite bool_decide_eq_true_2 by done. cbn [negb].
  by destruct (TransactionalStream_body ps w []) as [[[err ps'] w'] log'].
Qed.

Lemma Complete_replace_unfold (ps : Stream) (w : W) :
  StreamStatus (state ps) = Active →
  run (ReplaceTableStream_Complete ps) w
  = postComplete (snd (fst (fst (ReplaceTableStream_body ps w []))))
                 (fst (fst (fst (ReplaceTableStream_body ps w []))))
                 (snd (fst (ReplaceTableStream_body ps w [])))
                 (snd (ReplaceTableStream_body ps w [])).
Proof.
  intros Hact. unfold ReplaceTableStream_Complete, run, bind.
  rewrite bool_decide_eq_true_2 by done. cbn [negb].
  by destruct (ReplaceTableStream_body ps w []) as [[[err ps'] w'] log'].
Qed.

(** The body never touches the fields that [postComplete] releases. *)
Lemma TransactionalStream_body_keeps (ps : Stream) (w : W) (log : list Call) :
  let ps' := snd (fst (fst (TransactionalStream_body ps w log))) in
  tx ps' = tx ps ∧ batchFile ps' = batchFile ps ∧ tmpTable ps' = tmpTable ps.
Proof.
  unfold TransactionalStream_body, flushBatchFile. eff_unfold.
  destruct (0 <? SuccessfulRows (state ps))%Z; [|done].
  destruct (batchFile ps) as [path|] eqn:Hfile.
  - destruct (LoadTable _ _ w) as [[e|] w1]; cbn; [by rewrite Hfile|].
    destruct (EnsureTableWithoutCaching _ _ w1) as [[dst|e] w2]; cbn;
      [|by rewrite Hfile].
    by destruct (CopyTables _ _ _ w2) as [err w3].
  - destruct (EnsureTableWithoutCaching _ _ w) as [[dst|e] w2]; cbn;
      [|by rewrite Hfile].
    by destruct (CopyTables _ _ _ w2) as [err w3].
Qed.

(** Nor does it touch the stream's [last_error]. *)
Lemma TransactionalStream_body_last_error (ps : Stream) (w : W)
      (log : list Call) :
  LastError (state (snd (fst (fst (TransactionalStream_body ps w log)))))
  = LastError (state ps).
Proof.
  unfold TransactionalStream_body, flushBatchFile. eff_unfold.
  destruct (0 <? SuccessfulRows (state ps))%Z; [|done].
  destruct (batchFile ps) as [path|].
  - destruct (LoadTable _ _ w) as [[e|] w1]; cbn; [done|].
    destruct (EnsureTableWithoutCaching _ _ w1) as [[dst|e] w2]; cbn; [|done].
    by destruct (CopyTables _ _ _ w2) as [err w3].
  - destruct (EnsureTableWithoutCaching _ _ w) as [[dst|e] w2]; cbn; [|done].
    by destruct (CopyTables _ _ _ w2) as [err w3].
Qed.

(** The body of the ReplaceTable [Complete] hands the stream on as it
    is. *)
Lemma ReplaceTableStream_body_stream (ps : Stream) (w : W) (log : list Call) :
  snd (fst (fst (ReplaceTableStream_body ps w log))) = ps.
Proof.
  unfold ReplaceTableStream_body, flushBatchFile. eff_unfold.
  destruct (LastError (state ps)); [done|].
  destruct (0 <? SuccessfulRows (state ps))%Z.
  - destruct (batchFile ps) as [path|].
    + destruct (LoadTable _ _ w) as [[e|] w1]; cbn; [done|].
      destruct (ReplaceTable _ _ true w1) as [err w2]; cbn.
      destruct (IsOfType err DropError); cbn; [|done].
      by destruct (ReplaceTable _ _ false w2).
    + destruct (ReplaceTable _ _ true w) as [err w2]; cbn.
      destruct (IsOfType err DropError); cbn; [|done].
      by destruct (ReplaceTable _ _ false w2).
  - destruct (GetTableSchema _ w) as [[table|e] w1]; [|done].
    destruct (Exists (Some table)); [|done].
    by destruct (TruncateTable _ w1).
Qed.

End StreamFacts.

(** C8: [Complete] on a stream that is not active returns an error and does
    nothing else, in Batch and in ReplaceTable mode: the stream and the
    world are as before and no call is made. *)
Theorem Complete_requires_active {W : Type} {adapter : SQLAdapter W}
        (ps : Stream) (w : W) :
  StreamStatus (state ps) ≠ Active →
  run (TransactionalStream_Complete ps) w
  = (state ps, Some not_active, ps, w, [])
  ∧ run (ReplaceTableStream_Complete ps) w
    = (state ps, Some not_active, ps, w, []).
Proof.
  intros Hst.
  unfold TransactionalStream_Complete, ReplaceTableStream_Complete, run, ret.
  by rewrite bool_decide_eq_false_2.
Qed.

Lemma Complete_requires_active_witness :
  StreamStatus (state (with_status (batch_stream 3 (Some "bulker_s2") true)
                                   Completed)) ≠ Active
  ∧ run (TransactionalStream_Complete
           (with_status (batch_stream 3 (Some "bulker_s2") true) Completed))
        (server accepts_all [])
    = (state (with_status (batch_stream 3 (Some "bulker_s2") true) Completed),
       Some not_active,
       with_status (batch_stream 3 (Some "bulker_s2") true) Completed,
       server accepts_all [], [])
  ∧ run (ReplaceTableStream_Complete
           (with_status (batch_stream 3 (Some "bulker_s2") true) Completed))
        (server accepts_all [])
    = (state (with_status (batch_stream 3 (Some "bulker_s2") true) Completed),
       Some not_active,
       with_status (batch_stream 3 (Some "bulker_s2") true) Completed,
       server accepts_all [], []).
Proof.
  assert (Hst : StreamStatus
                  (state (with_status (batch_stream 3 (Some "bulker_s2") true)
                                      Completed)) ≠ Active) by discriminate.
  exact (conj Hst
           (Complete_requires_active
              (with_status (batch_stream 3 (Some "bulker_s2") true) Completed)
              (server accepts_all []) Hst)).
Defined.

(** C4: an active Batch stream with consumed rows whose steps succeed
    performs, in order, the flush of its batch file into the temporary
    table by [load_table], the ensure of the destination with the
    accumulated schema, the copy of the temporary table into it with the
    stream's merge flag, the release of the temporary table and the batch
    file, and the commit, or the rollback when [last_error] is set, which
    is then the error returned.  Without consumed rows it makes no flush,
    ensure or copy call and returns the stream's [last_error] (a commit
    that is owed taken to succeed).  Whenever a transaction is open the
    temporary table is dropped and the transaction is committed or rolled
    back. *)
Theorem TransactionalStream_Complete_steps {W : Type} {adapter : SQLAdapter W}
        (ps : Stream) (w w1 w2 w3 : W) (dst : Table) :
  StreamStatus (state ps) = Active →
  ((0 < SuccessfulRows (state ps))%Z →
   match batchFile ps with
   | Some path =>
       LoadTable (tmpTable ps)
                 (mkLoadSource LocalFile (batchFileFormat ps) path) w
       = (None, w1)
   | None => w1 = w
   end →
   EnsureTableWithoutCaching (id ps) (dstTable ps) w1 = (Ok dst, w2) →
   CopyTables dst (tmpTable ps) (merge ps) w2 = (None, w3) →
   calls_of (run (TransactionalStream_Complete ps) w)
   = (flush_calls ps
      ++ [CallEnsureTable (dstTable ps);
          CallCopyTables dst (tmpTable ps) (merge ps)]
      ++ release_calls ps
      ++ closing_calls ps (LastError (state ps)))%list
   ∧ (∀ e, LastError (state ps) = Some e →
           returned_error (run (TransactionalStream_Complete ps) w) = Some e))
  ∧ ((SuccessfulRows (state ps) ≤ 0)%Z →
     calls_of (run (TransactionalStream_Complete ps) w)
     = (release_calls ps ++ closing_calls ps (LastError (state ps)))%list
     ∧ Forall (fun c => is_data_step c = false)
              (calls_of (run (TransactionalStream_Complete ps) w))
     ∧ ((LastError (state ps) = None → tx ps = true →
         fst (Commit (snd (DropTable (Name (tmpTable ps)) true w))) = None) →
        returned_error (run (TransactionalStream_Complete ps) w)
        = LastError (state ps)))
  ∧ (tx ps = true →
     In (CallDropTable (Name (tmpTable ps)) true)
        (calls_of (run (TransactionalStream_Complete ps) w))
     ∧ (In CallCommit (calls_of (run (TransactionalStream_Complete ps) w))
        ∨ In CallRollback (calls_of (run (TransactionalStream_Complete ps) w)))).
Proof.
  intros Hact. rewrite Complete_transactional_unfold by done.
  rewrite postComplete_calls.
  pose proof (TransactionalStream_body_keeps ps w []) as (Htx & Hfile & Htmp).
  pose proof (TransactionalStream_body_last_error ps w []) as Hlast.
  cbn zeta in Htx, Hfile, Htmp.
  split_and!.
  - intros Hrows Hflush Hensure Hcopy.
    assert (Herr : fst (fst (fst (TransactionalStream_body ps w []))) = None).
    { unfold TransactionalStream_body, flushBatchFile, bind, call, ret.
      apply Z.ltb_lt in Hrows. rewrite Hrows.
      destruct (batchFile ps) as [path|].
      - rewrite Hflush, Hensure. cbn. by rewrite Hcopy.
      - subst w1. rewrite Hensure. cbn. by rewrite Hcopy. }
    split.
    + unfold release_calls, closing_calls, pending_error.
      rewrite Herr, Hlast, Htx, Hfile, Htmp.
      unfold TransactionalStream_body, flushBatchFile, flush_calls, bind, call,
        ret.
      apply Z.ltb_lt in Hrows. rewrite Hrows.
      destruct (batchFile ps) as [path|].
      * rewrite Hflush, Hensure. cbn. by rewrite Hcopy.
      * subst w1. rewrite Hensure. cbn. by rewrite Hcopy.
    + intros e He. apply postComplete_pending.
      unfold pending_error. by rewrite Herr, Hlast.
  - intros Hrows. apply Z.ltb_ge in Hrows.
    unfold TransactionalStream_body in *. rewrite Hrows in *.
    unfold ret in *. cbn in *.
    assert (Hpending : pending_error ps (LastError (state ps))
                       = LastError (state ps))
      by (unfold pending_error; by destruct (LastError (state ps))).
    rewrite Hpending.
    assert (Hlog : Forall (fun c => is_data_step c = false)
                     (release_calls ps ++ closing_calls ps (LastError (state ps)))).
    { apply Forall_app. split.
      - unfold release_calls. apply Forall_app.
        split; [destruct (tx ps) | destruct (batchFile ps)];
          repeat constructor.
      - unfold closing_calls.
        destruct (tx ps), (LastError (state ps)); repeat constructor. }
    split_and!; [done|done|].
    intros Hcommit.
    destruct (LastError (state ps)) as [e|] eqn:He.
    + apply postComplete_error.
    + destruct (tx ps) eqn:Hopen.
      * rewrite postComplete_commit by done. by apply Hcommit.
      * by apply postComplete_no_error_closed.
  - intros Hopen. unfold release_calls, closing_calls.
    rewrite Htx, Htmp, Hopen. split.
    + apply in_or_app. right. apply in_or_app. left. apply in_or_app. left.
      by left.
    + match goal with
      | |- In CallCommit (_ ++ _ ++ [match ?e with _ => _ end]) ∨ _ =>
          destruct e; [right|left];
          apply in_or_app; right; apply in_or_app; right; by left
      end.
Qed.

Lemma TransactionalStream_Complete_steps_witness :
  StreamStatus (state batch_ps) = Active
  ∧ (0 < SuccessfulRows (state batch_ps))%Z
  ∧ LoadTable (tmpTable batch_ps)
              (mkLoadSource LocalFile (batchFileFormat batch_ps) "bulker_s2")
              batch_w0
    = (None, batch_w1)
  ∧ EnsureTableWithoutCaching (id batch_ps) (dstTable batch_ps) batch_w1
    = (Ok batch_dst, batch_w2)
  ∧ CopyTables batch_dst (tmpTable batch_ps) (merge batch_ps) batch_w2
    = (None, batch_w3)
  ∧ calls_of (run (TransactionalStream_Complete batch_ps) batch_w0)
    = (flush_calls batch_ps
       ++ [CallEnsureTable (dstTable batch_ps);
           CallCopyTables batch_dst (tmpTable batch_ps) (merge batch_ps)]
       ++ release_calls batch_ps ++ closing_calls batch_ps None)%list
  ∧ rows_of (world_after (run (TransactionalStream_Complete batch_ps) batch_w0))
            "events"
    = Some [old_row; new_row].
Proof.
  assert (H0 : StreamStatus (state batch_ps) = Active) by reflexivity.
  assert (H1 : (0 < SuccessfulRows (state batch_ps))%Z) by reflexivity.
  assert (H2 : LoadTable (tmpTable batch_ps)
                 (mkLoadSource LocalFile (batchFileFormat batch_ps) "bulker_s2")
                 batch_w0 = (None, batch_w1)) by (vm_compute; reflexivity).
  assert (H3 : EnsureTableWithoutCaching (id batch_ps) (dstTable batch_ps) batch_w1
               = (Ok batch_dst, batch_w2)) by (vm_compute; reflexivity).
  assert (H4 : CopyTables batch_dst (tmpTable batch_ps) (merge batch_ps) batch_w2
               = (None, batch_w3)) by (vm_compute; reflexivity).
  refine (conj H0 (conj H1 (conj H2 (conj H3 (conj H4 (conj _ _)))))).
  - exact (proj1 (proj1 (TransactionalStream_Complete_steps batch_ps batch_w0
                           batch_w1 batch_w2 batch_w3 batch_dst H0)
                        H1 H2 H3 H4)).
  - vm_compute. reflexivity.
Defined.

(** Batching disabled: the rows of a stream without a batch file were
    inserted into the temporary table directly, and [Complete] ensures,
    copies, drops the temporary table and commits without a [load_table]
    call. *)
Lemma Complete_without_batch_file_skips_flush :
  StreamStatus (state (batch_stream 1 None true)) = Active
  ∧ (0 < SuccessfulRows (state (batch_stream 1 None true)))%Z
  ∧ calls_of (run (TransactionalStream_Complete (batch_stream 1 None true))
                  (server_with [new_row] accepts_all []))
    = [CallEnsureTable (events_table "events");
       CallCopyTables (events_table "events") (events_table "jitsu_tmp_ab12cd34")
                      true;
       CallDropTable "jitsu_tmp_ab12cd34" true;
       CallCommit]
  ∧ returned_error
      (run (TransactionalStream_Complete (batch_stream 1 None true))
           (server_with [new_row] accepts_all [])) = None
  ∧ rows_of (world_after
               (run (TransactionalStream_Complete (batch_stream 1 None true))
                    (server_with [new_row] accepts_all [])))
            "events"
    = Some [old_row; new_row].
Proof. split_and!; vm_compute; reflexivity. Qed.

Section ReplaceWithoutRows.

Context {W : Type} {adapter : SQLAdapter W}.

(** What a reader sees of a table, and the same table without its rows. *)
Context {V : Type}.
Variable view : W → string → option V.
Variable cleared : V → V.

(** The adapter contract the stream relies on: reading a schema changes no
    table, truncation clears the table and keeps its schema, dropping a
    table and committing leave the other tables alone. *)
Hypothesis get_schema_reads :
  ∀ n w r w', GetTableSchema n w = (r, w') → ∀ t, view w' t = view w t.
Hypothesis truncate_clears :
  ∀ n w w', TruncateTable n w = (None, w') → view w' n = cleared <$> view w n.
Hypothesis drop_frames :
  ∀ n b w r w' t, DropTable n b w = (r, w') → t ≠ n → view w' t = view w t.
Hypothesis commit_frames :
  ∀ w r w', Commit w = (r, w') → ∀ t, view w' t = view w t.

Lemma postComplete_view (ps : Stream) (w : W) (log : list Call) (t : string) :
  LastError (state ps) = None →
  (tx ps = true → Name (tmpTable ps) ≠ t) →
  view (world_after (postComplete ps None w log)) t = view w t.
Proof.
  intros Hnone Hside.
  unfold postComplete, pending_error, world_after, bind, call, ret.
  rewrite Hnone.
  destruct (tx ps) eqn:Htx.
  - destruct (DropTable (Name (tmpTable ps)) true w) as [r1 w1] eqn:Hdrop.
    assert (Hv1 : view w1 t = view w t).
    { eapply drop_frames; [done|]. intros ->. by apply Hside. }
    destruct (batchFile ps); cbn;
      destruct (Commit w1) as [r2 w2] eqn:Hcommit; cbn;
      by rewrite (commit_frames _ _ _ Hcommit).
  - by destruct (batchFile ps).
Qed.

(** C3: an active ReplaceTable stream with no error and no consumed row
    never calls [replace_table].  When the schema lookup reports an
    existing destination, [Complete] truncates it, and once the truncation
    succeeds the destination is its former self without rows; when the
    lookup reports no destination, [Complete] truncates nothing and the
    destination is as before. *)
Theorem ReplaceTableStream_Complete_no_rows (ps : Stream) (w : W) :
  StreamStatus (state ps) = Active →
  LastError (state ps) = None →
  SuccessfulRows (state ps) = 0%Z →
  (tx ps = true → Name (tmpTable ps) ≠ tableName ps) →
  Forall (fun c => is_replace c = false)
         (calls_of (run (ReplaceTableStream_Complete ps) w))
  ∧ ∀ table w1,
      GetTableSchema (tableName ps) w = (Ok table, w1) →
      if Exists (Some table)
      then
        In (CallTruncateTable (tableName ps))
           (calls_of (run (ReplaceTableStream_Complete ps) w))
        ∧ ∀ w2, TruncateTable (tableName ps) w1 = (None, w2) →
                view (world_after (run (ReplaceTableStream_Complete ps) w))
                     (tableName ps)
                = cleared <$> view w (tableName ps)
      else
        Forall (fun c => is_truncate c = false)
               (calls_of (run (ReplaceTableStream_Complete ps) w))
        ∧ view (world_after (run (ReplaceTableStream_Complete ps) w))
               (tableName ps)
          = view w (tableName ps).
Proof.
  intros Hact Herr Hrows Hside.
  rewrite Complete_replace_unfold by done.
  assert (Hrelease : ∀ err,
             Forall (fun c => is_replace c = false ∧ is_truncate c = false)
                    (release_calls ps ++ closing_calls ps err)).
  { intros err. apply Forall_app. split.
    - unfold release_calls. apply Forall_app.
      split; [destruct (tx ps) | destruct (batchFile ps)]; repeat constructor.
    - unfold closing_calls. destruct (tx ps), err; repeat constructor. }
  unfold ReplaceTableStream_body. rewrite Herr, Hrows. cbn [Z.ltb Z.compare].
  unfold bind, call, ret.
  destruct (GetTableSchema (tableName ps) w) as [[table|e] w1] eqn:Hget.
  - destruct (Exists (Some table)) eqn:Hex.
    + destruct (TruncateTable (tableName ps) w1) as [terr w2] eqn:Htrunc.
      cbn [fst snd]. rewrite postComplete_calls. split.
      * cbn [app]. repeat constructor.
        eapply Forall_impl; [apply (Hrelease (pending_error ps terr))|]. by intros c [? _].
      * intros table' w1' [= <- <-]. rewrite Hex. split.
        -- cbn [app]. right. by left.
        -- intros w2' Hcleared. rewrite Htrunc in Hcleared.
           injection Hcleared as -> <-.
           rewrite postComplete_view by done.
           rewrite (truncate_clears _ _ _ Htrunc).
           by rewrite (get_schema_reads _ _ _ _ Hget).
    + cbn [fst snd]. rewrite postComplete_calls. split.
      * cbn [app]. repeat constructor.
        eapply Forall_impl; [apply (Hrelease (pending_error ps None))|]. by intros c [? _].
      * intros table' w1' [= <- <-]. rewrite Hex. split.
        -- cbn [app]. repeat constructor.
           eapply Forall_impl; [apply (Hrelease (pending_error ps None))|]. by intros c [_ ?].
        -- rewrite postComplete_view by done.
           by rewrite (get_schema_reads _ _ _ _ Hget).
  - cbn [fst snd]. rewrite postComplete_calls. split; [|by intros ???].
    cbn [app]. repeat constructor.
    eapply Forall_impl; [apply (Hrelease (pending_error ps (Some e)))|]. by intros c [? _].
Qed.

End ReplaceWithoutRows.

(** The MySQL model meets the adapter contract. *)
Lemma mysql_GetTableSchema_tables (n : string) (m m' : MySQL) (r : res error Table) :
  mysql_GetTableSchema n m = (r, m') → tables m' = tables m.
Proof.
  unfold mysql_GetTableSchema, draw.
  destruct (getTable n m) as [table|e]; [|by intros [= _ <-]].
  destruct (negb (nonempty_map (Columns table))); [by intros [= _ <-]|].
  destruct (getPrimaryKeys n m) as [pk|e]; [|by intros [= _ <-]].
  by destruct (nonempty_set pk); intros [= _ <-].
Qed.

Lemma mysql_TruncateTable_clears (n : string) (m m' : MySQL) :
  mysql_TruncateTable n m = (None, m') →
  tables m' !! n = emptied <$> tables m !! n.
Proof.
  unfold mysql_TruncateTable.
  destruct (tables m !! n) as [td|] eqn:Htd; [|done].
  destruct (rejects m (StmtTruncate n)); [done|].
  intros [= <-]. cbn. by rewrite lookup_insert_eq.
Qed.

Lemma mysql_DropTable_other (n : string) (b : bool) (m m' : MySQL)
      (r : option error) (t : string) :
  mysql_DropTable n b m = (r, m') → t ≠ n → tables m' !! t = tables m !! t.
Proof.
  unfold mysql_DropTable. intros Hdrop Hne.
  destruct (rejects m (StmtDrop n)); [by injection Hdrop as _ <-|].
  destruct (tables m !! n).
  - injection Hdrop as _ <-. cbn. by rewrite lookup_delete_ne.
  - by destruct b; injection Hdrop as _ <-.
Qed.

Lemma mysql_Commit_tables (m m' : MySQL) (r : option error) :
  mysql_Commit m = (r, m') → tables m' = tables m.
Proof. unfold mysql_Commit. by destruct (rejects m StmtCommit); intros [= _ <-]. Qed.

Lemma ReplaceTableStream_Complete_no_rows_witness :
  StreamStatus (state (replace_stream 0 None true)) = Active
  ∧ LastError (state (replace_stream 0 None true)) = None
  ∧ SuccessfulRows (state (replace_stream 0 None true)) = 0%Z
  ∧ (tx (replace_stream 0 None true) = true →
     Name (tmpTable (replace_stream 0 None true))
     ≠ tableName (replace_stream 0 None true))
  ∧ Forall (fun c => is_replace c = false)
           (calls_of (run (ReplaceTableStream_Complete (replace_stream 0 None true))
                          (server accepts_all [])))
  ∧ In (CallTruncateTable "events")
       (calls_of (run (ReplaceTableStream_Complete (replace_stream 0 None true))
                      (server accepts_all [])))
  ∧ tables (world_after
              (run (ReplaceTableStream_Complete (replace_stream 0 None true))
                   (server accepts_all []))) !! "events"
    = Some (mkTableData events_columns [] []).
Proof.
  assert (H0 : StreamStatus (state (replace_stream 0 None true)) = Active)
    by reflexivity.
  assert (H1 : LastError (state (replace_stream 0 None true)) = None)
    by reflexivity.
  assert (H2 : SuccessfulRows (state (replace_stream 0 None true)) = 0%Z)
    by reflexivity.
  assert (H3 : tx (replace_stream 0 None true) = true →
               Name (tmpTable (replace_stream 0 None true))
               ≠ tableName (replace_stream 0 None true)) by (intros _; discriminate).
  destruct (ReplaceTableStream_Complete_no_rows (adapter := MySQL_adapter)
              (fun (m : MySQL) t => tables m !! t) emptied
              (fun n m r m' Hget t =>
                 f_equal (fun ts : gmap string TableData => ts !! t)
                         (mysql_GetTableSchema_tables n m m' r Hget))
              mysql_TruncateTable_clears
              (fun n b m r m' t => mysql_DropTable_other n b m m' r t)
              (fun m r m' Hc t =>
                 f_equal (fun ts : gmap string TableData => ts !! t)
                         (mysql_Commit_tables m m' r Hc))
              (replace_stream 0 None true) (server accepts_all [])
              H0 H1 H2 H3) as [Hno Hschema].
  specialize (Hschema (events_table "events") (server accepts_all [])).
  assert (Hget : GetTableSchema (tableName (replace_stream 0 None true))
                                (server accepts_all [])
                 = (Ok (events_table "events"), server accepts_all []))
    by (vm_compute; reflexivity).
  specialize (Hschema Hget).
  assert (Hex : Exists (Some (events_table "events")) = true)
    by (vm_compute; reflexivity).
  rewrite Hex in Hschema. destruct Hschema as [Hin Hview].
  refine (conj H0 (conj H1 (conj H2 (conj H3 (conj Hno (conj Hin _)))))).
  assert (Htr : TruncateTable (tableName (replace_stream 0 None true))
                              (server accepts_all [])
                = (None, snd (mysql_TruncateTable "events" (server accepts_all []))))
    by (vm_compute; reflexivity).
  etrans; [exact (Hview _ Htr) | vm_compute; reflexivity].
Defined.

Section ReplaceWithRows.

Context {W : Type} {adapter : SQLAdapter W}.

(** The part of the fallback that the stream gets right: after a flush that
    succeeds, [replace_table] is called with [drop_old=true], and once more
    with [drop_old=false] exactly when the first call fails with a
    [DropError]. *)
Lemma ReplaceTableStream_Complete_retries (ps : Stream) (w w1 w2 : W)
      (err : option error) :
  StreamStatus (state ps) = Active →
  LastError (state ps) = None →
  (0 < SuccessfulRows (state ps))%Z →
  match batchFile ps with
  | Some path =>
      LoadTable (tmpTable ps)
                (mkLoadSource LocalFile (batchFileFormat ps) path) w
      = (None, w1)
  | None => w1 = w
  end →
  ReplaceTable (tableName ps) (tmpTable ps) true w1 = (err, w2) →
  calls_of (run (ReplaceTableStream_Complete ps) w)
  = (flush_calls ps
     ++ [CallReplaceTable (tableName ps) (tmpTable ps) true]
     ++ (if IsOfType err DropError
         then [CallReplaceTable (tableName ps) (tmpTable ps) false] else [])
     ++ release_calls ps
     ++ closing_calls ps
          (if IsOfType err DropError
           then fst (ReplaceTable (tableName ps) (tmpTable ps) false w2)
           else err))%list.
Proof.
  intros Hact Herr Hrows Hflush Hreplace.
  rewrite Complete_replace_unfold by done. rewrite postComplete_calls.
  rewrite ReplaceTableStream_body_stream, pending_error_none by done.
  unfold ReplaceTableStream_body, flushBatchFile, flush_calls, bind, call, ret.
  apply Z.ltb_lt in Hrows. rewrite Herr, Hrows.
  destruct (batchFile ps) as [path|] eqn:Hfile.
  - rewrite Hflush, Hreplace. cbn [fst snd].
    destruct (IsOfType err DropError).
    + destruct (ReplaceTable (tableName ps) (tmpTable ps) false w2) as [err2 w3].
      cbn. unfold release_calls. by rewrite Hfile.
    + cbn. unfold release_calls. by rewrite Hfile.
  - subst w1. rewrite Hreplace. cbn [fst snd].
    destruct (IsOfType err DropError).
    + destruct (ReplaceTable (tableName ps) (tmpTable ps) false w2) as [err2 w3].
      cbn. unfold release_calls. by rewrite Hfile.
    + cbn. unfold release_calls. by rewrite Hfile.
Qed.

End ReplaceWithRows.

(** A rename creates no table other than the one it names. *)
Lemma mysql_renameTable_absent (ifExists : bool) (tableName newTableName : string)
      (m m' : MySQL) (r : option error) (t : string) :
  mysql_renameTable ifExists tableName newTableName m = (r, m') →
  t ≠ newTableName → tables m !! t = None → tables m' !! t = None.
Proof.
  intros Hrename Hne Habsent.
  assert (Hbase : ∀ r0 m0, base_renameTable tableName newTableName m = (r0, m0) →
                           tables m0 !! t = None).
  { unfold base_renameTable. intros r0 m0.
    destruct (tables m !! tableName) as [td|];
      destruct (tables m !! newTableName); try (by intros [= _ <-]).
    destruct (rejects m (StmtRename tableName newTableName));
      intros [= _ <-]; [done|].
    cbn. rewrite lookup_insert_ne by done.
    rewrite lookup_delete. by case_decide. }
  unfold mysql_renameTable in Hrename.
  destruct ifExists; [|by eapply Hbase].
  destruct (rejects m (StmtSelectExists tableName));
    [by injection Hrename as _ <-|].
  destruct (tables m !! tableName); [by eapply Hbase|].
  by injection Hrename as _ <-.
Qed.

(** A plain rename fails with a [RenameError] and succeeds only by moving
    an existing table to a free name. *)
Lemma base_renameTable_inv (tableName newTableName : string) (m m' : MySQL)
      (r : option error) :
  base_renameTable tableName newTableName m = (r, m') →
  match r with
  | Some e => kind e = RenameError ∧ m' = m
  | None => tableName ≠ newTableName ∧ tables m' !! tableName = None
  end.
Proof.
  unfold base_renameTable.
  destruct (tables m !! tableName) as [td|] eqn:Hold;
    destruct (tables m !! newTableName) eqn:Hnew;
    try (by intros [= <- <-]).
  destruct (rejects m (StmtRename tableName newTableName));
    intros [= <- <-]; [done|].
  assert (Hne : tableName ≠ newTableName) by congruence.
  split; [done|]. cbn. rewrite lookup_insert_ne by done.
  apply lookup_delete_eq.
Qed.

(** On the MySQL adapter the fallback cannot succeed: whenever
    [ReplaceTable] fails with a [DropError], the same call with
    [drop_old=false] fails with a [RenameError], unless the side table
    happens to bear the name of the next deprecated table. *)
Lemma mysql_ReplaceTable_retry_fails (target : string) (side : Table)
      (m m1 : MySQL) (e : error) :
  mysql_ReplaceTable target side true m = (Some e, m1) →
  kind e = DropError →
  Name side ≠ "deprecated_" +:+ target +:+ "_" +:+ hd "" (clock m1) →
  ∃ e', fst (mysql_ReplaceTable target side false m1) = Some e'
        ∧ kind e' = RenameError.
Proof.
  intros Hfirst Hkind Hname.
  assert (Hgone : tables m1 !! Name side = None).
  { unfold mysql_ReplaceTable, tick in Hfirst.
    destruct (mysql_renameTable true target _ _) as [err1 ma] eqn:H1.
    destruct (mysql_renameTable false (Name side) target ma) as [err mb] eqn:H2.
    cbn [mysql_renameTable] in H2.
    pose proof (base_renameTable_inv _ _ _ _ _ H2) as Hinv.
    destruct err as [e2|].
    - rewrite (bool_decide_eq_false_2 (Some e2 = None)), andb_false_r
        in Hfirst by done.
      injection Hfirst as <- <-. destruct Hinv as [Hk _]. congruence.
    - destruct Hinv as [_ Hmoved].
      destruct (true && bool_decide (err1 = None) && bool_decide (None = None));
        [|done].
      unfold mysql_DropTable in Hfirst.
      destruct (rejects mb (StmtDrop _)); [by injection Hfirst as _ <-|].
      by destruct (tables mb !! _). }
  unfold mysql_ReplaceTable, tick.
  destruct (mysql_renameTable true target _ _) as [err1 mc] eqn:H1.
  assert (Hstill : tables mc !! Name side = None)
    by (by eapply mysql_renameTable_absent).
  cbn [mysql_renameTable andb]. unfold base_renameTable. rewrite Hstill.
  eauto.
Qed.

(** C5 fails on the MySQL adapter.  The first [ReplaceTable] has already
    renamed both tables when its drop fails; the retry renames the new
    destination away and then finds no side table to put in its place.
    With a later clock reading the destination is gone after [Complete];
    with the same reading it holds the new rows; in both cases [Complete]
    fails with the rename error. *)
Theorem ReplaceTable_fallback_loses_destination :
  rows_of (server refuses_deprecated_drop []) "events" = Some [old_row]
  ∧ rows_of (server refuses_deprecated_drop []) "events_tmp_240101_000000"
    = Some [new_row]
  ∧ calls_of (run (ReplaceTableStream_Complete (replace_stream 1 None true))
                  (server refuses_deprecated_drop
                          ["20240101_000010"; "20240101_000011"]))
    = [CallReplaceTable "events" (events_table "events_tmp_240101_000000") true;
       CallReplaceTable "events" (events_table "events_tmp_240101_000000") false;
       CallDropTable "events_tmp_240101_000000" true;
       CallRollback]
  ∧ returned_error
      (run (ReplaceTableStream_Complete (replace_stream 1 None true))
           (server refuses_deprecated_drop
                   ["20240101_000010"; "20240101_000011"]))
    = Some (mkError RenameError "failed to rename table")
  ∧ StreamStatus
      (returned_state
         (run (ReplaceTableStream_Complete (replace_stream 1 None true))
              (server refuses_deprecated_drop
                      ["20240101_000010"; "20240101_000011"])))
    = Failed
  ∧ rows_of (world_after
               (run (ReplaceTableStream_Complete (replace_stream 1 None true))
                    (server refuses_deprecated_drop
                            ["20240101_000010"; "20240101_000011"])))
            "events"
    = None
  ∧ rows_of (world_after
               (run (ReplaceTableStream_Complete (replace_stream 1 None true))
                    (server refuses_deprecated_drop
                            ["20240101_000010"; "20240101_000011"])))
            "deprecated_events_20240101_000011"
    = Some [new_row]
  ∧ returned_error
      (run (ReplaceTableStream_Complete (replace_stream 1 None true))
           (server refuses_deprecated_drop
                   ["20240101_000010"; "20240101_000010"]))
    = Some (mkError RenameError "failed to rename table")
  ∧ rows_of (world_after
               (run (ReplaceTableStream_Complete (replace_stream 1 None true))
                    (server refuses_deprecated_drop
                            ["20240101_000010"; "20240101_000010"])))
            "events"
    = Some [new_row].
Proof. split_and!; vm_compute; reflexivity. Qed.

(** ** Constraint names *)

Lemma alphabet_alnum (n : nat) : is_alnum (nth n alphabet "a"%char) = true.
Proof.
  assert (Hall : forallb is_alnum alphabet = true) by reflexivity.
  destruct (nth_in_or_default n alphabet "a"%char) as [Hin| ->]; [|done].
  rewrite forallb_forall in Hall. by apply Hall.
Qed.

Lemma NewLettersNumbers_alnum (entropy : list nat) :
  all_alnum (NewLettersNumbers entropy) = true.
Proof.
  induction entropy as [|n rest IH]; [done|].
  cbn [NewLettersNumbers all_alnum]. by rewrite alphabet_alnum, IH.
Qed.

Lemma mysql_GetTableSchema_pk_name (n : string) (m m' : MySQL) (table : Table) :
  mysql_GetTableSchema n m = (Ok table, m') →
  (PKFields table ≠ ∅ →
   ∃ entropy, PrimaryKeyName table = BuildConstraintName (Name table) entropy)
  ∧ (PKFields table = ∅ → PrimaryKeyName table = "").
Proof.
  unfold mysql_GetTableSchema, getTable, getPrimaryKeys, draw.
  destruct (rejects m (StmtSelectColumns n)); [done|].
  cbn [Columns].
  match goal with |- context [negb (nonempty_map ?c)] =>
    destruct (negb (nonempty_map c)) end.
  { intros [= <- _]. cbn. split; [done|done]. }
  destruct (rejects m (StmtSelectPrimaryKeys n)); [done|].
  destruct (nonempty_set _) eqn:Hpk; intros [= <- _]; cbn.
  - split; [eauto|]. intros Hempty. apply nonempty_set_true in Hpk. done.
  - split; [|done]. intros Hne. apply nonempty_set_false in Hpk. done.
Qed.

(** C10: [BuildConstraintName] ignores the table name and returns the
    managed prefix followed by letters and digits, so [Diff] takes every
    generated name for a managed one; [MySQL.GetTableSchema] gives such a
    name to every table with a primary key, so [Diff] never leaves a MySQL
    primary key alone as user-defined: when the incoming table exists and
    its key differs, the key is reconfigured. *)
Theorem generated_names_are_managed {cr : CaseRanges} :
  (∀ t1 t2 entropy,
      BuildConstraintName t1 entropy = BuildConstraintName t2 entropy)
  ∧ (∀ t entropy,
        BuildConstraintName t entropy
        = BulkerManagedPkConstraintPrefix +:+ NewLettersNumbers entropy
        ∧ all_alnum (NewLettersNumbers entropy) = true)
  ∧ (∀ t entropy, pk_not_managed (BuildConstraintName t entropy) = false)
  ∧ (∀ n m m' table,
        mysql_GetTableSchema n m = (Ok table, m') →
        (PKFields table ≠ ∅ →
         ∃ entropy,
           PrimaryKeyName table = BuildConstraintName (Name table) entropy)
        ∧ pk_not_managed (PrimaryKeyName table) = false
        ∧ ∀ incoming entropy,
            Exists (Some incoming) = true →
            PKFields table ≠ PKFields incoming →
            PKFields (Diff table (Some incoming) entropy) = PKFields incoming
            ∧ PrimaryKeyName (Diff table (Some incoming) entropy)
              = BuildConstraintName (Name table) entropy).
Proof.
  split_and!.
  - done.
  - intros t entropy. split; [done|]. apply NewLettersNumbers_alnum.
  - apply generated_name_managed.
  - intros n m m' table Hget.
    destruct (mysql_GetTableSchema_pk_name n m m' table Hget) as [Hsome Hnone].
    assert (Hman : pk_not_managed (PrimaryKeyName table) = false).
    { destruct (decide (PKFields table = ∅)) as [Hempty|Hne].
      - by rewrite (Hnone Hempty).
      - destruct (Hsome Hne) as [entropy ->]. apply generated_name_managed. }
    split_and!; [done|done|].
    intros incoming entropy Hex Hdiff.
    unfold Diff. rewrite Hex, Hman. cbn [negb].
    destruct (nonempty_set (PKFields table)) eqn:Hcur.
    + by rewrite bool_decide_eq_false_2.
    + apply nonempty_set_false in Hcur.
      assert (Hinc : nonempty_set (PKFields incoming) = true).
      { apply nonempty_set_true. congruence. }
      by rewrite Hinc.
Qed.

Lemma generated_names_are_managed_witness :
  mysql_GetTableSchema "users"
    (mkMySQL {[ "users" := mkTableData [("id", "BIGINT"); ("v", "TEXT")] ["id"] [] ]}
             ∅ [] [[10; 70; 61]] accepts_all NDJSON)
  = (Ok (mkTable "users" false false
                 (list_to_map [("id", column_of_type "BIGINT");
                               ("v", column_of_type "TEXT")])
                 {[ "id" ]} "jitsu_pk_ki9" "" no_partition false),
     mkMySQL {[ "users" := mkTableData [("id", "BIGINT"); ("v", "TEXT")] ["id"] [] ]}
             ∅ [] [] accepts_all NDJSON)
  ∧ pk_not_managed "jitsu_pk_ki9" = false.
Proof.
  assert (Hget : mysql_GetTableSchema "users"
    (mkMySQL {[ "users" := mkTableData [("id", "BIGINT"); ("v", "TEXT")] ["id"] [] ]}
             ∅ [] [[10; 70; 61]] accepts_all NDJSON)
  = (Ok (mkTable "users" false false
                 (list_to_map [("id", column_of_type "BIGINT");
                               ("v", column_of_type "TEXT")])
                 {[ "id" ]} "jitsu_pk_ki9" "" no_partition false),
     mkMySQL {[ "users" := mkTableData [("id", "BIGINT"); ("v", "TEXT")] ["id"] [] ]}
             ∅ [] [] accepts_all NDJSON)) by (vm_compute; reflexivity).
  split; [exact Hget|].
  exact (proj1 (proj2 (proj2 (proj2 (proj2 generated_names_are_managed))
                         _ _ _ _ Hget))).
Defined.

(** * Further properties of the code *)

(** ** Table model *)

Lemma nonempty_map_false {V} (m : gmap string V) : nonempty_map m = false ↔ m = ∅.
Proof.
  unfold nonempty_map. rewrite bool_decide_eq_false.
  split; [apply dec_stable | tauto].
Qed.

Lemma FitsToTable_lookup (t destination : Table) :
  FitsToTable t destination = true ↔
  ∀ n, is_Some (Columns t !! n) → is_Some (Columns destination !! n).
Proof.
  unfold FitsToTable. rewrite bool_decide_eq_true, map_Forall_lookup.
  split.
  - intros Hall n [c Hc]. by apply (Hall n c).
  - intros Hall n c Hc. apply Hall. eauto.
Qed.

Lemma FitsToTable_Diff_columns {cr : CaseRanges} (current incoming : Table) (entropy : list nat) :
  FitsToTable incoming current = true
  ↔ Columns (Diff current (Some incoming) entropy) = ∅.
Proof.
  rewrite FitsToTable_lookup, map_empty. split.
  - intros Hfits n. rewrite Diff_columns_lookup.
    destruct (Columns current !! n) eqn:Hcur; [done|].
    destruct (Columns incoming !! n) eqn:Hinc; [|done].
    destruct (Hfits n) as [c Hc]; [eauto|congruence].
  - intros Hnone n [c Hc]. specialize (Hnone n).
    rewrite Diff_columns_lookup in Hnone.
    destruct (Columns current !! n); [eauto|congruence].
Qed.

(** X1: a table fits the destination column-wise exactly when the diff of
    the destination against it adds no column. *)
Theorem FitsToTable_iff_no_missing_column {cr : CaseRanges} (current incoming : Table)
        (entropy : list nat) :
  FitsToTable incoming current = true
  ↔ Columns (Diff current (Some incoming) entropy) = ∅.
Proof. apply FitsToTable_Diff_columns. Qed.


(** X2: the diff of a destination against an incoming table is empty (it
    does not [Exists]) exactly when the incoming table does not exist, or
    fits the destination and either the destination's primary key is
    user-defined or the two primary-key sets are equal. *)
Theorem Diff_Exists {cr : CaseRanges} (current incoming : Table) (entropy : list nat) :
  Exists (Some (Diff current (Some incoming) entropy)) = false
  ↔ (Exists (Some incoming) = false
     ∨ (FitsToTable incoming current = true
        ∧ (pk_not_managed (PrimaryKeyName current) = true
           ∨ PKFields current = PKFields incoming))).
Proof.
  rewrite (FitsToTable_Diff_columns current incoming entropy).
  destruct (Exists (Some incoming)) eqn:Hex.
  2:{ rewrite Diff_columns_not_exists by done. split; [by left|]. intros _.
      cbn. by rewrite !orb_false_iff, nonempty_map_false, nonempty_set_false. }
  rewrite Diff_columns by done.
  unfold Diff. rewrite Hex. cbn [negb Exists].
  rewrite !orb_false_iff.
  destruct (pk_not_managed (PrimaryKeyName current)) eqn:Hman.
  - cbn. rewrite nonempty_map_false, nonempty_set_false. naive_solver.
  - destruct (nonempty_set (PKFields current)) eqn:Hcur.
    + destruct (decide (PKFields current = PKFields incoming)) as [Heq|Hne].
      * rewrite bool_decide_eq_true_2 by done. cbn.
        rewrite nonempty_map_false, nonempty_set_false. naive_solver.
      * rewrite bool_decide_eq_false_2 by done. cbn. naive_solver.
    + apply nonempty_set_false in Hcur.
      destruct (nonempty_set (PKFields incoming)) eqn:Hinc.
      * cbn. rewrite Hinc. apply nonempty_set_true in Hinc.
        split; [naive_solver|]. intros [|[_ [|Heq]]]; [done|done|].
        congruence.
      * cbn. apply nonempty_set_false in Hinc.
        rewrite nonempty_map_false, nonempty_set_false.
        split; [|naive_solver]. intros [[Hcols _] _]. right.
        split; [done|]. right. congruence.
Qed.

(** X3: [SortedColumnNames] lists every column name once, in ascending
    byte-wise order, and is the only such list. *)
Theorem SortedColumnNames_sorted (t : Table) :
  StronglySorted String.le (SortedColumnNames t)
  ∧ NoDup (SortedColumnNames t)
  ∧ (∀ n, n ∈ SortedColumnNames t ↔ is_Some (Columns t !! n))
  ∧ length (SortedColumnNames t) = size (Columns t)
  ∧ ∀ l, Sorted String.le l → l ≡ₚ (map_to_list (Columns t)).*1 →
         l = SortedColumnNames t.
Proof.
  unfold SortedColumnNames.
  assert (Hperm : merge_sort String.le (map_to_list (Columns t)).*1
                  ≡ₚ (map_to_list (Columns t)).*1)
    by apply merge_sort_Permutation.
  split_and!.
  - apply StronglySorted_merge_sort; apply _.
  - rewrite Hperm. apply NoDup_fst_map_to_list.
  - intros n. rewrite Hperm, list_elem_of_fmap. split.
    + intros [[k c] [-> Hin]]. apply elem_of_map_to_list in Hin. eauto.
    + intros [c Hc]. exists (n, c). split; [done|].
      by apply elem_of_map_to_list.
  - by rewrite Hperm, length_fmap, length_map_to_list.
  - intros l Hsorted Hl. apply (Sorted_unique String.le); [done| |].
    + apply Sorted_merge_sort; apply _.
    + by rewrite Hperm.
Qed.

Lemma SortedColumnNames_sorted_witness :
  Sorted String.le ["id"; "name"]
  ∧ ["id"; "name"] ≡ₚ (map_to_list (Columns (events_table "events"))).*1
  ∧ ["id"; "name"] = SortedColumnNames (events_table "events").
Proof.
  assert (H1 : Sorted String.le ["id"; "name"]).
  { repeat constructor. }
  assert (H2 : ["id"; "name"]
               ≡ₚ (map_to_list (Columns (events_table "events"))).*1).
  { apply NoDup_Permutation.
    - repeat constructor; set_solver.
    - apply NoDup_fst_map_to_list.
    - intros n. rewrite list_elem_of_fmap. split.
      + intros Hn. assert (Hc : is_Some (Columns (events_table "events") !! n)).
        { apply elem_of_cons in Hn as [->|Hn]; [by vm_compute; eauto|].
          apply elem_of_cons in Hn as [->|Hn]; [by vm_compute; eauto|].
          by apply elem_of_nil in Hn. }
        destruct Hc as [c Hc]. exists (n, c). split; [done|].
        by apply elem_of_map_to_list.
      + intros [[k c] [-> Hin]]. apply elem_of_map_to_list in Hin.
        cbn in *.
        destruct (decide (k = "id")) as [->|?]; [set_solver|].
        destruct (decide (k = "name")) as [->|?]; [set_solver|].
        rewrite lookup_insert_ne, lookup_insert_ne, lookup_empty in Hin by done.
        done. }
  refine (conj H1 (conj H2 _)).
  exact (proj2 (proj2 (proj2 (proj2
           (SortedColumnNames_sorted (events_table "events"))))) _ H1 H2).
Defined.

(** ** SQL type hints *)

(** X4: [WithDDL] with an empty SQL type changes nothing; otherwise the
    named column is pinned ([Override]) with that SQL type, its DDL type is
    the given one or, when that is empty, the SQL type, and every other
    column is as before.  [With] is [WithDDL] without a DDL type. *)
Theorem WithDDL_lookup (s : gmap string SQLColumn) (name sqlType ddlType : string) :
  WithDDL s name "" ddlType = s
  ∧ (sqlType ≠ "" →
     (∃ c, WithDDL s name sqlType ddlType !! name = Some c
           ∧ Type_ c = sqlType
           ∧ Override c = true
           ∧ GetDDLType c = (if decide (ddlType = "") then sqlType else ddlType))
     ∧ (∀ other, other ≠ name →
                 WithDDL s name sqlType ddlType !! other = s !! other)
     ∧ (∃ c, With s name sqlType !! name = Some c
             ∧ Type_ c = sqlType ∧ GetDDLType c = sqlType)).
Proof.
  split; [done|]. intros Hty. unfold With, WithDDL.
  rewrite !decide_False by done. split_and!.
  - destruct (decide (ddlType = "")) as [->|Hddl].
    + rewrite lookup_insert_eq. eexists. split; [done|]. cbn.
      unfold GetDDLType. cbn. by rewrite decide_False.
    + rewrite lookup_insert_eq. eexists. split; [done|]. cbn.
      unfold GetDDLType. cbn. by rewrite decide_False.
  - intros other Hne. by destruct (decide (ddlType = ""));
      rewrite lookup_insert_ne.
  - exists (mkSQLColumn sqlType sqlType true UNKNOWN false).
    rewrite decide_False by done.
    destruct (decide ("" = "")) as [_|Hne]; [|done].
    rewrite lookup_insert_eq. split; [done|]. cbn. unfold GetDDLType. cbn.
    by rewrite decide_False.
Qed.

Lemma WithDDL_lookup_witness :
  "JSONB" ≠ ""
  ∧ ∃ c, WithDDL ∅ "payload" "JSONB" "" !! "payload" = Some c
         ∧ Type_ c = "JSONB"
         ∧ Override c = true
         ∧ GetDDLType c = (if decide ("" = "") then "JSONB" else "").
Proof.
  assert (H : "JSONB" ≠ "") by discriminate.
  exact (conj H (proj1 (proj2 (WithDDL_lookup ∅ "payload" "JSONB" "") H))).
Defined.

(** ** MySQL adapter *)

(** X5: without parameters the connection string is
    [user:password@tcp(host:port)/db]; with parameters it goes on with [?],
    ten ampersands (the ten empty strings the parameter list starts with)
    and the parameters as [key=value] joined by ampersands. *)
Theorem mySQLDriverConnectionString_parameters (config : DataSourceConfig) :
  (Parameters config = [] →
   mySQLDriverConnectionString config
   = Username config +:+ ":" +:+ Password config +:+ "@tcp(" +:+ Host config
     +:+ ":" +:+ pretty (Port config) +:+ ")/" +:+ Db config)
  ∧ (Parameters config ≠ [] →
     mySQLDriverConnectionString config
     = ((Username config +:+ ":" +:+ Password config +:+ "@tcp(" +:+ Host config
         +:+ ":" +:+ pretty (Port config) +:+ ")/" +:+ Db config) +:+ "?")
       +:+ "&&&&&&&&&&"
       +:+ Join (map (fun kv => fst kv +:+ "=" +:+ snd kv) (Parameters config))
                "&").
Proof.
  unfold mySQLDriverConnectionString. split.
  - intros ->. by rewrite bool_decide_eq_false_2 by (cbn; lia).
  - intros Hparams. destruct (Parameters config) as [|kv rest]; [done|].
    rewrite bool_decide_eq_true_2 by (cbn; lia). reflexivity.
Qed.

Lemma mySQLDriverConnectionString_parameters_witness :
  [("tls", "preferred")] ≠ []
  ∧ mySQLDriverConnectionString
      (mkDataSourceConfig "db.local" 3306 "shop" "root" "secret"
                          [("tls", "preferred")])
    = "root:secret@tcp(db.local:3306)/shop?&&&&&&&&&&tls=preferred".
Proof.
  assert (H : [("tls", "preferred")] ≠ ([] : list (string * string)))
    by discriminate.
  split; [exact H|].
  exact (proj2 (mySQLDriverConnectionString_parameters
                  (mkDataSourceConfig "db.local" 3306 "shop" "root" "secret"
                                      [("tls", "preferred")])) H).
Defined.

(** The columns [getTable] collects from rows with distinct names. *)
Lemma getTable_columns (rows : list (string * string))
      (acc : gmap string SQLColumn) (c : string) :
  NoDup rows.*1 →
  fold_left
    (fun (columns : gmap string SQLColumn) (row : string * string) =>
       if decide (snd row = "") then columns
       else <[fst row := column_of_type (snd row)]> columns)
    rows acc !! c
  = match list_find (fun row => fst row = c) rows with
    | Some (_, (_, ty)) => if decide (ty = "") then acc !! c
                           else Some (column_of_type ty)
    | None => acc !! c
    end.
Proof.
  revert acc. induction rows as [|[k ty] rows IH]; intros acc Hnd; [done|].
  apply NoDup_cons in Hnd as [Hk Hnd]. cbn [fold_left fst snd].
  rewrite IH by done. cbn [list_find fst].
  destruct (decide (k = c)) as [->|Hne].
  - assert (Hnone : list_find (fun row => fst row = c) rows = None).
    { apply list_find_None, Forall_forall. intros [k' ty'] Hin Heq.
      cbn in Heq. subst k'. apply Hk. apply list_elem_of_fmap. by exists (c, ty'). }
    rewrite Hnone. cbn.
    destruct (decide (ty = "")); [done|]. by rewrite lookup_insert_eq.
  - destruct (list_find _ rows) as [[i [k' ty']]|] eqn:Hfind; cbn.
    + destruct (decide (ty' = "")); [|done].
      destruct (decide (ty = "")); [done|]. by rewrite lookup_insert_ne.
    + destruct (decide (ty = "")); [done|]. by rewrite lookup_insert_ne.
Qed.

(** X6: for a table with no column (a table that is not there)
    [GetTableSchema] returns a table that does not exist; it never asks for
    the primary key, so a failing primary-key query does not matter, and
    it draws no constraint name. *)
Theorem GetTableSchema_missing_table (tableName : string) (m : MySQL) :
  rejects m (StmtSelectColumns tableName) = false →
  (∀ row, row ∈ information_schema_columns m tableName → snd row = "") →
  ∃ table,
    mysql_GetTableSchema tableName m = (Ok table, m)
    ∧ Exists (Some table) = false
    ∧ Name table = tableName.
Proof.
  intros Hq Hrows. unfold mysql_GetTableSchema, getTable. rewrite Hq.
  assert (Hcols : fold_left
            (fun (columns : gmap string SQLColumn) (row : string * string) =>
               if decide (snd row = "") then columns
               else <[fst row := column_of_type (snd row)]> columns)
            (information_schema_columns m tableName) ∅ = ∅).
  { revert Hrows. generalize (information_schema_columns m tableName).
    intros rows. induction rows as [|row rows IH]; intros Hrows; [done|].
    cbn [fold_left]. rewrite decide_True by (apply Hrows; by left).
    apply IH. intros r Hr. apply Hrows. by right. }
  cbn [Columns]. rewrite Hcols.
  assert (Hempty : nonempty_map (∅ : gmap string SQLColumn) = false)
    by (by apply nonempty_map_false).
  rewrite Hempty. cbn [negb]. eexists. split; [done|].
  cbn. rewrite Hempty. split; [|done].
  by assert (nonempty_set (∅ : gset string) = false) as ->
    by (by apply nonempty_set_false).
Qed.

Lemma GetTableSchema_missing_table_witness :
  rejects (server rejects_primary_key_query [])
          (StmtSelectColumns "orders") = false
  ∧ (∀ row,
        row ∈ information_schema_columns
                (server rejects_primary_key_query [])
                "orders" →
        snd row = "")
  ∧ ∃ table,
      mysql_GetTableSchema "orders"
        (server rejects_primary_key_query [])
      = (Ok table,
         server rejects_primary_key_query [])
      ∧ Exists (Some table) = false
      ∧ Name table = "orders".
Proof.
  assert (H1 : rejects (server rejects_primary_key_query [])
                       (StmtSelectColumns "orders") = false) by reflexivity.
  assert (H2 : ∀ row,
             row ∈ information_schema_columns
                     (server rejects_primary_key_query [])
                     "orders" →
             snd row = "").
  { intros row. vm_compute. intros Hrow. by apply elem_of_nil in Hrow. }
  exact (conj H1 (conj H2 (GetTableSchema_missing_table "orders" _ H1 H2))).
Defined.

Lemma NoDup_fst_agree {A B} (l : list (A * B)) (x : A) (y1 y2 : B) :
  NoDup l.*1 → (x, y1) ∈ l → (x, y2) ∈ l → y1 = y2.
Proof.
  induction l as [|[k v] l IH]; intros Hnd H1 H2; [by apply elem_of_nil in H1|].
  apply NoDup_cons in Hnd as [Hk Hnd].
  apply elem_of_cons in H1 as [H1|H1];
    apply elem_of_cons in H2 as [H2|H2]; simplify_eq; try done.
  - destruct Hk. apply list_elem_of_fmap. by exists (k, y2).
  - destruct Hk. apply list_elem_of_fmap. by exists (k, y1).
  - by apply IH.
Qed.

(** X7: for a table whose rows in [information_schema.columns] bear
    distinct names, [GetTableSchema] changes no table and returns the
    table under the name asked for, with exactly the columns whose type is
    not empty, each with that type; when it has a column, its primary key
    is the set the server reports, under a bulker-managed name if that set
    is not empty. *)
Theorem GetTableSchema_existing_table {cr : CaseRanges} (tableName : string) (m : MySQL) :
  rejects m (StmtSelectColumns tableName) = false →
  rejects m (StmtSelectPrimaryKeys tableName) = false →
  NoDup (information_schema_columns m tableName).*1 →
  ∃ table m',
    mysql_GetTableSchema tableName m = (Ok table, m')
    ∧ tables m' = tables m
    ∧ Name table = tableName
    ∧ (∀ c col,
          Columns table !! c = Some col
          ↔ ∃ ty, (c, ty) ∈ information_schema_columns m tableName
                  ∧ ty ≠ "" ∧ col = column_of_type ty)
    ∧ (Columns table ≠ ∅ →
       PKFields table = list_to_set (information_schema_primary_keys m tableName)
       ∧ (PKFields table ≠ ∅ →
          pk_not_managed (PrimaryKeyName table) = false
          ∧ PrimaryKeyName table ≠ "")).
Proof.
  intros Hq Hpk Hnd.
  destruct (mysql_GetTableSchema tableName m) as [r m'] eqn:Hget.
  pose proof (mysql_GetTableSchema_tables _ _ _ _ Hget) as Htables.
  unfold mysql_GetTableSchema, getTable, getPrimaryKeys, draw in Hget.
  rewrite Hq, Hpk in Hget. cbn [Columns] in Hget.
  set (cols := fold_left _ _ _) in Hget.
  assert (Hcols : ∀ c col,
             cols !! c = Some col
             ↔ ∃ ty, (c, ty) ∈ information_schema_columns m tableName
                     ∧ ty ≠ "" ∧ col = column_of_type ty).
  { intros c col. unfold cols. rewrite getTable_columns by done.
    rewrite lookup_empty. split.
    - destruct (list_find _ _) as [[i [k ty]]|] eqn:Hfind; [|done].
      apply list_find_Some in Hfind as (Hi & Hk & _). cbn in Hk. subst k.
      destruct (decide (ty = "")); [done|]. intros [= <-].
      exists ty. split_and!; [|done|done].
      by eapply list_elem_of_lookup_2.
    - intros (ty & Hin & Hty & ->).
      destruct (list_find_elem_of (fun row => fst row = c) _ _ Hin eq_refl)
        as [[i [k ty']] Hfind].
      rewrite Hfind.
      apply list_find_Some in Hfind as (Hi & Hk & _). cbn in Hk. subst k.
      apply list_elem_of_lookup_2 in Hi.
      rewrite (NoDup_fst_agree _ _ _ _ Hnd Hi Hin).
      by rewrite decide_False. }
  destruct (negb (nonempty_map cols)) eqn:Hne.
  - injection Hget as <- <-. eexists _, _. split; [done|].
    split_and!; [done|done|exact Hcols|].
    cbn. intros Hcontra. apply negb_true_iff, nonempty_map_false in Hne. done.
  - destruct (nonempty_set _) eqn:Hset; injection Hget as <- <-;
      (eexists _, _; split; [done|]); cbn;
      (split_and!; [done|done|exact Hcols|]); intros _; (split; [done|]).
    + intros _. split; [apply generated_name_managed | discriminate].
    + intros Hcontra. apply nonempty_set_false in Hset. done.
Qed.

Lemma GetTableSchema_existing_table_witness :
  rejects (server accepts_all []) (StmtSelectColumns "events") = false
  ∧ rejects (server accepts_all []) (StmtSelectPrimaryKeys "events") = false
  ∧ NoDup (information_schema_columns (server accepts_all []) "events").*1
  ∧ ∃ table m',
      mysql_GetTableSchema "events" (server accepts_all []) = (Ok table, m')
      ∧ tables m' = tables (server accepts_all [])
      ∧ Name table = "events".
Proof.
  assert (H1 : rejects (server accepts_all []) (StmtSelectColumns "events")
               = false) by reflexivity.
  assert (H2 : rejects (server accepts_all []) (StmtSelectPrimaryKeys "events")
               = false) by reflexivity.
  assert (H3 : NoDup (information_schema_columns (server accepts_all [])
                                                 "events").*1).
  { vm_compute. repeat constructor; set_solver. }
  destruct (GetTableSchema_existing_table "events" (server accepts_all [])
              H1 H2 H3) as (table & m' & Hget & Htables & Hname & _).
  refine (conj H1 (conj H2 (conj H3 _))). by exists table, m'.
Defined.

(** X8: [mySQLMapColumnValue] never hands the driver a zero time: a zero
    time becomes one nanosecond past it, and every other value is passed
    on as it is; mapping twice is mapping once. *)
Theorem mySQLMapColumnValue_never_zero (v : ColumnValue) (valuePresent : bool)
        (column : SQLColumn) :
  (∀ t, mySQLMapColumnValue v valuePresent column = TimeValue t →
        IsZero t = false)
  ∧ ((∀ t, v = TimeValue t → IsZero t = false) →
     mySQLMapColumnValue v valuePresent column = v)
  ∧ mySQLMapColumnValue (mySQLMapColumnValue v valuePresent column)
                        valuePresent column
    = mySQLMapColumnValue v valuePresent column.
Proof.
  unfold mySQLMapColumnValue. destruct v as [t|x]; [|by split_and!].
  destruct (IsZero t) eqn:Hzero.
  - split_and!; [by intros t' [= <-] | | done].
    intros Hnz. by rewrite (Hnz t eq_refl) in Hzero.
  - split_and!; [by intros t' [= <-] | done | by rewrite Hzero].
Qed.

Lemma mySQLMapColumnValue_never_zero_witness :
  mySQLMapColumnValue (TimeValue (mkTime 0 0)) true (column_of_type "TIMESTAMP(6)")
  = TimeValue (mkTime 0 1)
  ∧ IsZero (mkTime 0 1) = false.
Proof.
  assert (H : mySQLMapColumnValue (TimeValue (mkTime 0 0)) true
                                  (column_of_type "TIMESTAMP(6)")
              = TimeValue (mkTime 0 1)) by reflexivity.
  exact (conj H (proj1 (mySQLMapColumnValue_never_zero
                          (TimeValue (mkTime 0 0)) true
                          (column_of_type "TIMESTAMP(6)")) _ H)).
Defined.

Lemma append_self_inv (s t : string) : s +:+ t = s → t = "".
Proof.
  induction s as [|c s IH]; [done|].
  rewrite append_cons. intros [= Heq]. by apply IH.
Qed.

(** X9: the side table of a ReplaceTable stream never bears the name of
    the destination; it takes the columns, the primary key and the
    primary-key name of the table of the first object. *)
Theorem ReplaceTableStream_tmpTable_name (tableName now : string)
        (tableForObject : Table) :
  Name (ReplaceTableStream_tmpTable tableName now tableForObject) ≠ tableName
  ∧ HasPrefix (Name (ReplaceTableStream_tmpTable tableName now tableForObject))
              tableName = true
  ∧ Columns (ReplaceTableStream_tmpTable tableName now tableForObject)
    = Columns tableForObject
  ∧ PKFields (ReplaceTableStream_tmpTable tableName now tableForObject)
    = PKFields tableForObject
  ∧ PrimaryKeyName (ReplaceTableStream_tmpTable tableName now tableForObject)
    = PrimaryKeyName tableForObject.
Proof.
  split_and!; try done.
  - cbn. intros Heq. by apply append_self_inv in Heq.
  - cbn. induction tableName as [|c s IH]; [done|].
    rewrite append_cons. cbn. by rewrite Ascii.eqb_refl.
Qed.

(** X10: when the destination and the replacement are there, the name of
    the deprecated table is free and the server takes every statement,
    [MySQL.ReplaceTable] succeeds: the destination holds what the
    replacement held, the replacement's name is free, the deprecated table
    holds the old destination, or is gone when [dropOldTable] is set, and
    no other table is touched. *)
Theorem mysql_ReplaceTable_swaps (targetTableName : string)
        (replacementTable : Table) (dropOldTable : bool) (m : MySQL)
        (old new : TableData) :
  tables m !! targetTableName = Some old →
  tables m !! Name replacementTable = Some new →
  Name replacementTable ≠ targetTableName →
  tables m !! ("deprecated_" +:+ targetTableName +:+ "_" +:+ hd "" (clock m))
  = None →
  (∀ s, rejects m s = false) →
  ∃ m',
    mysql_ReplaceTable targetTableName replacementTable dropOldTable m
    = (None, m')
    ∧ tables m' !! targetTableName = Some new
    ∧ tables m' !! Name replacementTable = None
    ∧ tables m' !! ("deprecated_" +:+ targetTableName +:+ "_" +:+ hd "" (clock m))
      = (if dropOldTable then None else Some old)
    ∧ ∀ t, t ≠ targetTableName → t ≠ Name replacementTable →
           t ≠ "deprecated_" +:+ targetTableName +:+ "_" +:+ hd "" (clock m) →
           tables m' !! t = tables m !! t.
Proof.
  intros Hold Hnew Hne Hfree Hok.
  set (d := "deprecated_" +:+ targetTableName +:+ "_" +:+ hd "" (clock m)) in *.
  assert (Hd1 : d ≠ targetTableName) by congruence.
  assert (Hd2 : d ≠ Name replacementTable) by congruence.
  unfold mysql_ReplaceTable, tick, mysql_renameTable, base_renameTable,
    set_tables.
  cbn [tables rejects]. fold d. rewrite !Hok, Hold, Hfree. cbn [tables rejects].
  rewrite lookup_insert_ne, lookup_delete_ne, Hnew by done.
  rewrite lookup_insert_ne, lookup_delete_eq by done.
  rewrite Hok. cbn [tables rejects andb].
  rewrite !bool_decide_eq_true_2 by done.
  destruct dropOldTable; cbn [andb].
  - unfold mysql_DropTable, set_tables. cbn [tables rejects]. rewrite Hok.
    rewrite lookup_insert_ne, lookup_delete_ne, lookup_insert_eq by done.
    eexists. split; [done|]. cbn [tables].
    split_and!.
    + by rewrite lookup_delete_ne, lookup_insert_eq.
    + rewrite lookup_delete_ne, lookup_insert_ne, lookup_delete_eq by done.
      done.
    + by rewrite lookup_delete_eq.
    + intros t H1 H2 H3.
      by rewrite lookup_delete_ne, lookup_insert_ne, lookup_delete_ne,
        lookup_insert_ne, lookup_delete_ne.
  - eexists. split; [done|]. cbn [tables].
    split_and!.
    + by rewrite lookup_insert_eq.
    + by rewrite lookup_insert_ne, lookup_delete_eq.
    + by rewrite lookup_insert_ne, lookup_delete_ne, lookup_insert_eq.
    + intros t H1 H2 H3.
      by rewrite lookup_insert_ne, lookup_delete_ne, lookup_insert_ne,
        lookup_delete_ne.
Qed.

Lemma mysql_ReplaceTable_swaps_witness :
  tables (server accepts_all ["20240101_000010"]) !! "events"
  = Some (mkTableData events_columns [] [old_row])
  ∧ tables (server accepts_all ["20240101_000010"])
    !! Name (events_table "events_tmp_240101_000000")
    = Some (mkTableData events_columns [] [new_row])
  ∧ Name (events_table "events_tmp_240101_000000") ≠ "events"
  ∧ tables (server accepts_all ["20240101_000010"])
    !! ("deprecated_" +:+ "events" +:+ "_"
        +:+ hd "" (clock (server accepts_all ["20240101_000010"])))
    = None
  ∧ (∀ s, rejects (server accepts_all ["20240101_000010"]) s = false)
  ∧ ∃ m',
      mysql_ReplaceTable "events" (events_table "events_tmp_240101_000000")
                         true (server accepts_all ["20240101_000010"])
      = (None, m')
      ∧ tables m' !! "events" = Some (mkTableData events_columns [] [new_row]).
Proof.
  assert (H1 : tables (server accepts_all ["20240101_000010"]) !! "events"
               = Some (mkTableData events_columns [] [old_row]))
    by (vm_compute; reflexivity).
  assert (H2 : tables (server accepts_all ["20240101_000010"])
               !! Name (events_table "events_tmp_240101_000000")
               = Some (mkTableData events_columns [] [new_row]))
    by (vm_compute; reflexivity).
  assert (H3 : Name (events_table "events_tmp_240101_000000") ≠ "events")
    by discriminate.
  assert (H4 : tables (server accepts_all ["20240101_000010"])
               !! ("deprecated_" +:+ "events" +:+ "_"
                   +:+ hd "" (clock (server accepts_all ["20240101_000010"])))
               = None) by (vm_compute; reflexivity).
  assert (H5 : ∀ s, rejects (server accepts_all ["20240101_000010"]) s = false)
    by done.
  destruct (mysql_ReplaceTable_swaps "events"
              (events_table "events_tmp_240101_000000") true
              (server accepts_all ["20240101_000010"]) _ _ H1 H2 H3 H4 H5)
    as (m' & Hrun & Htarget & _).
  refine (conj H1 (conj H2 (conj H3 (conj H4 (conj H5 _))))).
  by exists m'.
Defined.

(** X11: when the replacement table is missing, [MySQL.ReplaceTable] has
    already renamed the destination to the deprecated name before the
    second rename fails: it returns a [RenameError], the destination's name
    is left free and the old destination sits under the deprecated name. *)
Theorem mysql_ReplaceTable_missing_replacement (targetTableName : string)
        (replacementTable : Table) (dropOldTable : bool) (m : MySQL)
        (old : TableData) :
  tables m !! targetTableName = Some old →
  tables m !! Name replacementTable = None →
  Name replacementTable
  ≠ "deprecated_" +:+ targetTableName +:+ "_" +:+ hd "" (clock m) →
  tables m !! ("deprecated_" +:+ targetTableName +:+ "_" +:+ hd "" (clock m))
  = None →
  (∀ s, rejects m s = false) →
  ∃ e m',
    mysql_ReplaceTable targetTableName replacementTable dropOldTable m
    = (Some e, m')
    ∧ kind e = RenameError
    ∧ tables m' !! targetTableName = None
    ∧ tables m' !! ("deprecated_" +:+ targetTableName +:+ "_" +:+ hd "" (clock m))
      = Some old.
Proof.
  intros Hold Hnew Hne Hfree Hok.
  set (d := "deprecated_" +:+ targetTableName +:+ "_" +:+ hd "" (clock m)) in *.
  assert (Hd1 : d ≠ targetTableName) by congruence.
  unfold mysql_ReplaceTable, tick, mysql_renameTable, base_renameTable,
    set_tables.
  cbn [tables rejects]. fold d. rewrite !Hok, Hold, Hfree. cbn [tables rejects].
  rewrite lookup_insert_ne by done.
  assert (Hside : delete targetTableName (tables m) !! Name replacementTable
                  = None).
  { rewrite lookup_delete. by case_decide. }
  rewrite Hside. rewrite andb_false_r.
  eexists _, _. split; [done|]. cbn [kind tables].
  split_and!; [done| |by rewrite lookup_insert_eq].
  by rewrite lookup_insert_ne, lookup_delete_eq.
Qed.

Lemma mysql_ReplaceTable_missing_replacement_witness :
  tables (server accepts_all ["20240101_000010"]) !! "events"
  = Some (mkTableData events_columns [] [old_row])
  ∧ tables (server accepts_all ["20240101_000010"])
    !! Name (events_table "events_tmp_none") = None
  ∧ ∃ e m',
      mysql_ReplaceTable "events" (events_table "events_tmp_none") true
                         (server accepts_all ["20240101_000010"])
      = (Some e, m')
      ∧ kind e = RenameError
      ∧ tables m' !! "events" = None.
Proof.
  assert (H1 : tables (server accepts_all ["20240101_000010"]) !! "events"
               = Some (mkTableData events_columns [] [old_row]))
    by (vm_compute; reflexivity).
  assert (H2 : tables (server accepts_all ["20240101_000010"])
               !! Name (events_table "events_tmp_none") = None)
    by (vm_compute; reflexivity).
  assert (H3 : Name (events_table "events_tmp_none")
               ≠ "deprecated_" +:+ "events" +:+ "_"
                 +:+ hd "" (clock (server accepts_all ["20240101_000010"])))
    by discriminate.
  assert (H4 : tables (server accepts_all ["20240101_000010"])
               !! ("deprecated_" +:+ "events" +:+ "_"
                   +:+ hd "" (clock (server accepts_all ["20240101_000010"])))
               = None) by (vm_compute; reflexivity).
  assert (H5 : ∀ s, rejects (server accepts_all ["20240101_000010"]) s = false)
    by done.
  destruct (mysql_ReplaceTable_missing_replacement "events"
              (events_table "events_tmp_none") true
              (server accepts_all ["20240101_000010"]) _ H1 H2 H3 H4 H5)
    as (e & m' & Hrun & Hkind & Htarget & _).
  refine (conj H1 (conj H2 _)). by exists e, m'.
Defined.

(** ** Streams: failure paths *)

Section StreamFailures.

Context {W : Type} {adapter : SQLAdapter W}.

Lemma postComplete_failed_state (ps : Stream) (e : error) (w : W)
      (log : list Call) :
  returned_state (postComplete ps (Some e) w log)
  = mkState Failed (Some e) (SuccessfulRows (state ps))
            (ProcessedRows (state ps)) (Representation (state ps)).
Proof.
  unfold postComplete, returned_state, bind, call, ret.
  destruct (tx ps), (batchFile ps);
    repeat (match goal with
            | |- context [DropTable ?n ?b ?w] => destruct (DropTable n b w)
            | |- context [Rollback ?w] => destruct (Rollback w)
            end; cbn);
    by cbn.
Qed.

Lemma release_calls_harmless (ps : Stream) (err : option error) :
  Forall (fun c => is_replace c = false ∧ is_truncate c = false
                   ∧ is_data_step c = false)
         (release_calls ps ++ closing_calls ps err).
Proof.
  apply Forall_app. split.
  - unfold release_calls. apply Forall_app.
    split; [destruct (tx ps) | destruct (batchFile ps)]; repeat constructor.
  - unfold closing_calls. destruct (tx ps), err; repeat constructor.
Qed.

(** X12: [Complete] of an active ReplaceTable stream that carries an error
    leaves the destination alone, whatever rows it has consumed: it makes
    no flush, no [replace_table], no schema lookup and no truncate call.
    All it does is release: with a transaction open it drops the side
    table and rolls back, and it removes the batch file if there is one.
    It returns that error and leaves the stream failed. *)
Theorem ReplaceTableStream_Complete_after_error (ps : Stream) (w : W) (e : error) :
  StreamStatus (state ps) = Active →
  LastError (state ps) = Some e →
  calls_of (run (ReplaceTableStream_Complete ps) w)
  = ((if tx ps then [CallDropTable (Name (tmpTable ps)) true] else [])
     ++ match batchFile ps with
        | Some path => [CallRemoveFile path]
        | None => []
        end
     ++ (if tx ps then [CallRollback] else []))%list
  ∧ Forall (fun c => is_replace c = false ∧ is_truncate c = false
                     ∧ is_data_step c = false)
           (calls_of (run (ReplaceTableStream_Complete ps) w))
  ∧ returned_error (run (ReplaceTableStream_Complete ps) w) = Some e
  ∧ StreamStatus (returned_state (run (ReplaceTableStream_Complete ps) w))
    = Failed.
Proof.
  intros Hact Herr. rewrite Complete_replace_unfold by done.
  unfold ReplaceTableStream_body. rewrite Herr. unfold ret. cbn [fst snd].
  rewrite postComplete_calls. cbn [app pending_error].
  split_and!; [|apply release_calls_harmless|..]; try apply postComplete_error.
  unfold release_calls, closing_calls. rewrite <- app_assoc.
  by destruct (tx ps).
Qed.

(** X13: when a step of a Batch [Complete] fails, the later steps are not
    attempted and the transaction is rolled back: a failed flush is
    followed by no ensure and no copy and its error is returned; a failed
    ensure is followed by no copy, its error is returned under the message
    [failed to ensure destination table] and the representation is the
    destination table as accumulated; a failed copy is returned after the
    representation has become the ensured table. *)
Theorem TransactionalStream_Complete_failures (ps : Stream) (w w1 w2 w3 : W)
        (dst : Table) (e : error) :
  StreamStatus (state ps) = Active →
  (0 < SuccessfulRows (state ps))%Z →
  (∀ path,
      batchFile ps = Some path →
      LoadTable (tmpTable ps)
                (mkLoadSource LocalFile (batchFileFormat ps) path) w
      = (Some e, w1) →
      calls_of (run (TransactionalStream_Complete ps) w)
      = (flush_calls ps ++ release_calls ps ++ closing_calls ps (Some e))%list
      ∧ returned_error (run (TransactionalStream_Complete ps) w) = Some e)
  ∧ (match batchFile ps with
     | Some path =>
         LoadTable (tmpTable ps)
                   (mkLoadSource LocalFile (batchFileFormat ps) path) w
         = (None, w1)
     | None => w1 = w
     end →
     (EnsureTableWithoutCaching (id ps) (dstTable ps) w1 = (Err e, w2) →
      calls_of (run (TransactionalStream_Complete ps) w)
      = (flush_calls ps ++ [CallEnsureTable (dstTable ps)]
         ++ release_calls ps
         ++ closing_calls ps
              (Some (Decorate e "failed to ensure destination table")))%list
      ∧ returned_error (run (TransactionalStream_Complete ps) w)
        = Some (Decorate e "failed to ensure destination table")
      ∧ Representation (returned_state (run (TransactionalStream_Complete ps) w))
        = Some (dstTable ps))
     ∧ (EnsureTableWithoutCaching (id ps) (dstTable ps) w1 = (Ok dst, w2) →
        CopyTables dst (tmpTable ps) (merge ps) w2 = (Some e, w3) →
        calls_of (run (TransactionalStream_Complete ps) w)
        = (flush_calls ps
           ++ [CallEnsureTable (dstTable ps);
               CallCopyTables dst (tmpTable ps) (merge ps)]
           ++ release_calls ps ++ closing_calls ps (Some e))%list
        ∧ returned_error (run (TransactionalStream_Complete ps) w) = Some e
        ∧ Representation
            (returned_state (run (TransactionalStream_Complete ps) w))
          = Some dst)).
Proof.
  intros Hact Hrows. rewrite Complete_transactional_unfold by done.
  pose proof (TransactionalStream_body_keeps ps w []) as (Htx & Hfile & Htmp).
  cbn zeta in Htx, Hfile, Htmp.
  rewrite postComplete_calls. unfold release_calls, closing_calls.
  rewrite Htx, Hfile, Htmp. clear Htx Hfile Htmp.
  apply Z.ltb_lt in Hrows.
  unfold TransactionalStream_body, flushBatchFile, flush_calls, bind, call, ret.
  rewrite Hrows. split.
  - intros path Hfile Hload. rewrite Hfile, Hload. cbn [fst snd app].
    split; [done|]. apply postComplete_error.
  - intros Hflush. split.
    + intros Hensure. destruct (batchFile ps) as [path|].
      * rewrite Hflush, Hensure. cbn [fst snd app].
        split_and!; [done|apply postComplete_error|].
        by rewrite postComplete_failed_state.
      * subst w1. rewrite Hensure. cbn [fst snd app].
        split_and!; [done|apply postComplete_error|].
        by rewrite postComplete_failed_state.
    + intros Hensure Hcopy. destruct (batchFile ps) as [path|].
      * rewrite Hflush, Hensure. cbn. rewrite Hcopy. cbn [fst snd app].
        split_and!; [done|apply postComplete_error|].
        by rewrite postComplete_failed_state.
      * subst w1. rewrite Hensure. cbn. rewrite Hcopy. cbn [fst snd app].
        split_and!; [done|apply postComplete_error|].
        by rewrite postComplete_failed_state.
Qed.

(** X14: a failure in [Complete] of a ReplaceTable stream stops it before
    the table is replaced or truncated.  Without consumed rows a failed
    schema lookup is followed by no truncate; with consumed rows a failed
    flush is followed by no [replace_table] call; and a first
    [replace_table] that fails with an error other than a [DropError] is
    not retried.  Each time the error is the one returned. *)
Theorem ReplaceTableStream_Complete_failures (ps : Stream) (w w1 w2 : W)
        (e : error) :
  StreamStatus (state ps) = Active →
  LastError (state ps) = None →
  (SuccessfulRows (state ps) = 0%Z →
   GetTableSchema (tableName ps) w = (Err e, w1) →
   calls_of (run (ReplaceTableStream_Complete ps) w)
   = ([CallGetTableSchema (tableName ps)]
      ++ release_calls ps ++ closing_calls ps (Some e))%list
   ∧ returned_error (run (ReplaceTableStream_Complete ps) w) = Some e)
  ∧ ((0 < SuccessfulRows (state ps))%Z →
     (∀ path,
         batchFile ps = Some path →
         LoadTable (tmpTable ps)
                   (mkLoadSource LocalFile (batchFileFormat ps) path) w
         = (Some e, w1) →
         calls_of (run (ReplaceTableStream_Complete ps) w)
         = (flush_calls ps ++ release_calls ps
            ++ closing_calls ps (Some e))%list
         ∧ returned_error (run (ReplaceTableStream_Complete ps) w) = Some e)
     ∧ (match batchFile ps with
        | Some path =>
            LoadTable (tmpTable ps)
                      (mkLoadSource LocalFile (batchFileFormat ps) path) w
            = (None, w1)
        | None => w1 = w
        end →
        ReplaceTable (tableName ps) (tmpTable ps) true w1 = (Some e, w2) →
        kind e ≠ DropError →
        calls_of (run (ReplaceTableStream_Complete ps) w)
        = (flush_calls ps
           ++ [CallReplaceTable (tableName ps) (tmpTable ps) true]
           ++ release_calls ps ++ closing_calls ps (Some e))%list
        ∧ returned_error (run (ReplaceTableStream_Complete ps) w) = Some e)).
Proof.
  intros Hact Herr. rewrite Complete_replace_unfold by done.
  unfold ReplaceTableStream_body, flushBatchFile, flush_calls, bind, call, ret.
  rewrite Herr. split.
  - intros Hrows Hget. rewrite Hrows. cbn [Z.ltb Z.compare]. rewrite Hget.
    cbn [fst snd]. rewrite postComplete_calls. cbn [app].
    split; [done|]. apply postComplete_error.
  - intros Hrows. apply Z.ltb_lt in Hrows. rewrite Hrows. split.
    + intros path Hfile Hload. rewrite Hfile, Hload. cbn [fst snd].
      rewrite postComplete_calls. unfold release_calls. rewrite Hfile.
      cbn [app]. split; [done|]. apply postComplete_error.
    + intros Hflush Hreplace Hkind.
      assert (Hnot : IsOfType (Some e) DropError = false).
      { cbn. by apply bool_decide_eq_false. }
      destruct (batchFile ps) as [path|] eqn:Hfile.
      * rewrite Hflush, Hreplace. cbn [fst snd]. rewrite Hnot. cbn [fst snd].
        rewrite postComplete_calls. unfold release_calls. rewrite Hfile.
        cbn [app]. split; [done|]. apply postComplete_error.
      * subst w1. rewrite Hreplace. cbn [fst snd]. rewrite Hnot. cbn [fst snd].
        rewrite postComplete_calls. unfold release_calls. rewrite Hfile.
        cbn [app]. split; [done|]. apply postComplete_error.
Qed.

End StreamFailures.

Lemma ReplaceTableStream_Complete_after_error_witness :
  StreamStatus (state errored_replace_stream) = Active
  ∧ LastError (state errored_replace_stream)
    = Some (mkError LoadError "failed to load table")
  ∧ calls_of (run (ReplaceTableStream_Complete errored_replace_stream)
                  (server accepts_all []))
    = [CallDropTable "events_tmp_240101_000000" true; CallRollback]
  ∧ rows_of (world_after (run (ReplaceTableStream_Complete errored_replace_stream)
                              (server accepts_all [])))
            "events"
    = Some [old_row].
Proof.
  assert (H1 : StreamStatus (state errored_replace_stream) = Active)
    by reflexivity.
  assert (H2 : LastError (state errored_replace_stream)
               = Some (mkError LoadError "failed to load table")) by reflexivity.
  refine (conj H1 (conj H2 (conj _ _))).
  - exact (proj1 (ReplaceTableStream_Complete_after_error
                    errored_replace_stream (server accepts_all []) _ H1 H2)).
  - vm_compute. reflexivity.
Defined.

Lemma TransactionalStream_Complete_failures_witness :
  StreamStatus (state batch_ps) = Active
  ∧ (0 < SuccessfulRows (state batch_ps))%Z
  ∧ batchFile batch_ps = Some "bulker_s2"
  ∧ LoadTable (tmpTable batch_ps)
              (mkLoadSource LocalFile (batchFileFormat batch_ps) "bulker_s2")
              (server rejects_load [])
    = (Some (mkError LoadError "failed to load table"), server rejects_load [])
  ∧ calls_of (run (TransactionalStream_Complete batch_ps) (server rejects_load []))
    = (flush_calls batch_ps ++ release_calls batch_ps
       ++ closing_calls batch_ps
            (Some (mkError LoadError "failed to load table")))%list
  ∧ returned_error
      (run (TransactionalStream_Complete batch_ps) (server rejects_load []))
    = Some (mkError LoadError "failed to load table").
Proof.
  assert (H1 : StreamStatus (state batch_ps) = Active) by reflexivity.
  assert (H2 : (0 < SuccessfulRows (state batch_ps))%Z) by reflexivity.
  assert (H3 : batchFile batch_ps = Some "bulker_s2") by reflexivity.
  assert (H4 : LoadTable (tmpTable batch_ps)
                 (mkLoadSource LocalFile (batchFileFormat batch_ps) "bulker_s2")
                 (server rejects_load [])
               = (Some (mkError LoadError "failed to load table"),
                  server rejects_load [])) by (vm_compute; reflexivity).
  refine (conj H1 (conj H2 (conj H3 (conj H4 _)))).
  exact (proj1 (TransactionalStream_Complete_failures batch_ps
                  (server rejects_load []) (server rejects_load [])
                  (server rejects_load []) (server rejects_load [])
                  (dstTable batch_ps)
                  (mkError LoadError "failed to load table") H1 H2)
               "bulker_s2" H3 H4).
Defined.

Lemma ReplaceTableStream_Complete_failures_witness :
  StreamStatus (state (replace_stream 0 None false)) = Active
  ∧ LastError (state (replace_stream 0 None false)) = None
  ∧ SuccessfulRows (state (replace_stream 0 None false)) = 0%Z
  ∧ GetTableSchema (tableName (replace_stream 0 None false))
                   (server rejects_schema_lookup [])
    = (Err (mkError GetTableError "failed to get table columns"),
       server rejects_schema_lookup [])
  ∧ calls_of (run (ReplaceTableStream_Complete (replace_stream 0 None false))
                  (server rejects_schema_lookup []))
    = ([CallGetTableSchema (tableName (replace_stream 0 None false))]
       ++ release_calls (replace_stream 0 None false)
       ++ closing_calls (replace_stream 0 None false)
            (Some (mkError GetTableError "failed to get table columns")))%list
  ∧ returned_error
      (run (ReplaceTableStream_Complete (replace_stream 0 None false))
           (server rejects_schema_lookup []))
    = Some (mkError GetTableError "failed to get table columns").
Proof.
  assert (H1 : StreamStatus (state (replace_stream 0 None false)) = Active)
    by reflexivity.
  assert (H2 : LastError (state (replace_stream 0 None false)) = None)
    by reflexivity.
  assert (H3 : SuccessfulRows (state (replace_stream 0 None false)) = 0%Z)
    by reflexivity.
  assert (H4 : GetTableSchema (tableName (replace_stream 0 None false))
                              (server rejects_schema_lookup [])
               = (Err (mkError GetTableError "failed to get table columns"),
                  server rejects_schema_lookup [])) by (vm_compute; reflexivity).
  refine (conj H1 (conj H2 (conj H3 (conj H4 _)))).
  exact (proj1 (ReplaceTableStream_Complete_failures
                  (replace_stream 0 None false)
                  (server rejects_schema_lookup [])
                  (server rejects_schema_lookup [])
                  (server rejects_schema_lookup [])
                  (mkError GetTableError "failed to get table columns") H1 H2)
               H3 H4).
Defined.

(** X15: on the MySQL adapter the fallback of a ReplaceTable stream never
    completes.  Whenever the first [ReplaceTable] of [Complete] fails with
    a [DropError], with or without a batch file flushed before it, the
    stream calls it once more with [drop_old=false], that call fails with a
    [RenameError], and [Complete] returns that error and fails the stream.
    The side table is taken not to bear the name of the next deprecated
    table. *)
Theorem ReplaceTableStream_Complete_fallback_fails {cr : CaseRanges}
        (ps : Stream) (m m0 m1 : MySQL) (e : error) :
  StreamStatus (state ps) = Active →
  LastError (state ps) = None →
  (0 < SuccessfulRows (state ps))%Z →
  match batchFile ps with
  | Some path =>
      mysql_LoadTable (tmpTable ps)
                      (mkLoadSource LocalFile (batchFileFormat ps) path) m
      = (None, m0)
  | None => m0 = m
  end →
  mysql_ReplaceTable (tableName ps) (tmpTable ps) true m0 = (Some e, m1) →
  kind e = DropError →
  Name (tmpTable ps)
  ≠ "deprecated_" +:+ tableName ps +:+ "_" +:+ hd "" (clock m1) →
  ∃ e',
    returned_error (run (ReplaceTableStream_Complete ps) m) = Some e'
    ∧ kind e' = RenameError
    ∧ StreamStatus (returned_state (run (ReplaceTableStream_Complete ps) m))
      = Failed
    ∧ calls_of (run (ReplaceTableStream_Complete ps) m)
      = (flush_calls ps
         ++ [CallReplaceTable (tableName ps) (tmpTable ps) true;
             CallReplaceTable (tableName ps) (tmpTable ps) false]
         ++ release_calls ps ++ closing_calls ps (Some e'))%list.
Proof.
  intros Hact Herr Hrows Hflush Hfirst Hkind Hname.
  destruct (mysql_ReplaceTable_retry_fails _ _ _ _ _ Hfirst Hkind Hname)
    as (e' & Hretry & Hkind').
  exists e'.
  rewrite Complete_replace_unfold by done.
  unfold ReplaceTableStream_body, flushBatchFile, flush_calls, bind, call, ret.
  apply Z.ltb_lt in Hrows. rewrite Herr, Hrows.
  assert (Htail : ∀ log,
    let r := postComplete ps
               (fst (mysql_ReplaceTable (tableName ps) (tmpTable ps) false m1))
               (snd (mysql_ReplaceTable (tableName ps) (tmpTable ps) false m1))
               log in
    returned_error r = Some e'
    ∧ kind e' = RenameError
    ∧ StreamStatus (returned_state r) = Failed
    ∧ calls_of r = (log ++ release_calls ps ++ closing_calls ps (Some e'))%list).
  { intros log. cbn zeta. rewrite postComplete_calls, Hretry.
    split_and!; [apply postComplete_error|done|apply postComplete_error|done]. }
  destruct (batchFile ps) as [path|] eqn:Hfile.
  - change (LoadTable (tmpTable ps)
              (mkLoadSource LocalFile (batchFileFormat ps) path) m)
      with (mysql_LoadTable (tmpTable ps)
              (mkLoadSource LocalFile (batchFileFormat ps) path) m).
    rewrite Hflush.
    change (ReplaceTable (tableName ps) (tmpTable ps) true m0)
      with (mysql_ReplaceTable (tableName ps) (tmpTable ps) true m0).
    rewrite Hfirst. cbn [fst snd IsOfType]. rewrite Hkind.
    rewrite bool_decide_eq_true_2 by done.
    change (ReplaceTable (tableName ps) (tmpTable ps) false m1)
      with (mysql_ReplaceTable (tableName ps) (tmpTable ps) false m1).
    specialize (Htail
      ([CallLoadTable (tmpTable ps)
          (mkLoadSource LocalFile (batchFileFormat ps) path);
        CallReplaceTable (tableName ps) (tmpTable ps) true;
        CallReplaceTable (tableName ps) (tmpTable ps) false])).
    cbn zeta in Htail.
    by destruct (mysql_ReplaceTable (tableName ps) (tmpTable ps) false m1).
  - subst m0.
    change (ReplaceTable (tableName ps) (tmpTable ps) true m)
      with (mysql_ReplaceTable (tableName ps) (tmpTable ps) true m).
    rewrite Hfirst. cbn [fst snd IsOfType]. rewrite Hkind.
    rewrite bool_decide_eq_true_2 by done.
    change (ReplaceTable (tableName ps) (tmpTable ps) false m1)
      with (mysql_ReplaceTable (tableName ps) (tmpTable ps) false m1).
    specialize (Htail
      ([CallReplaceTable (tableName ps) (tmpTable ps) true;
        CallReplaceTable (tableName ps) (tmpTable ps) false])).
    cbn zeta in Htail.
    by destruct (mysql_ReplaceTable (tableName ps) (tmpTable ps) false m1).
Qed.

Lemma ReplaceTableStream_Complete_fallback_fails_witness :
  let ps := replace_stream 1 (Some "bulker_s2") true in
  let m := server refuses_deprecated_drop ["20240101_000010"; "20240101_000011"] in
  let m0 := snd (mysql_LoadTable (tmpTable ps)
                   (mkLoadSource LocalFile (batchFileFormat ps) "bulker_s2") m) in
  let m1 := snd (mysql_ReplaceTable (tableName ps) (tmpTable ps) true m0) in
  StreamStatus (state ps) = Active
  ∧ LastError (state ps) = None
  ∧ (0 < SuccessfulRows (state ps))%Z
  ∧ mysql_LoadTable (tmpTable ps)
                    (mkLoadSource LocalFile (batchFileFormat ps) "bulker_s2") m
    = (None, m0)
  ∧ mysql_ReplaceTable (tableName ps) (tmpTable ps) true m0
    = (Some (mkError DropError "failed to drop table"), m1)
  ∧ kind (mkError DropError "failed to drop table") = DropError
  ∧ Name (tmpTable ps)
    ≠ "deprecated_" +:+ tableName ps +:+ "_" +:+ hd "" (clock m1)
  ∧ ∃ e',
      returned_error (run (ReplaceTableStream_Complete ps) m) = Some e'
      ∧ kind e' = RenameError
      ∧ StreamStatus (returned_state (run (ReplaceTableStream_Complete ps) m))
        = Failed.
Proof.
  intros ps m m0 m1.
  assert (H1 : StreamStatus (state ps) = Active) by reflexivity.
  assert (H2 : LastError (state ps) = None) by reflexivity.
  assert (H3 : (0 < SuccessfulRows (state ps))%Z) by reflexivity.
  assert (H4 : mysql_LoadTable (tmpTable ps)
                 (mkLoadSource LocalFile (batchFileFormat ps) "bulker_s2") m
               = (None, m0)) by (vm_compute; reflexivity).
  assert (H5 : mysql_ReplaceTable (tableName ps) (tmpTable ps) true m0
               = (Some (mkError DropError "failed to drop table"), m1))
    by (vm_compute; reflexivity).
  assert (H6 : kind (mkError DropError "failed to drop table") = DropError)
    by reflexivity.
  assert (H7 : Name (tmpTable ps)
               ≠ "deprecated_" +:+ tableName ps +:+ "_" +:+ hd "" (clock m1))
    by (vm_compute; discriminate).
  refine (conj H1 (conj H2 (conj H3 (conj H4 (conj H5 (conj H6 (conj H7 _))))))).
  destruct (ReplaceTableStream_Complete_fallback_fails ps m m0 m1 _
              H1 H2 H3 H4 H5 H6 H7)
    as (e' & Herr & Hkind & Hfailed & _).
  exists e'. by split_and!.
Defined.

(** ** Flattener: what the flat map looks like *)

Lemma Contains_empty_marker (s : string) : Contains s "" = true.
Proof. by destruct s. Qed.

Lemma Contains_in_empty (sub : string) : Contains "" sub = true → sub = "".
Proof. by destruct sub. Qed.

Section FlattenerShape.

Variable SqlTypeKeyword : string.
Variable Marshal : value → option string.
Variable f : FlattenerImpl.

Local Abbreviation flatten'' := (flatten SqlTypeKeyword Marshal f).
Local Abbreviation settled' := (settled SqlTypeKeyword f).

Lemma stored_settled (key : string) (v x : value) :
  (∀ fields, v ≠ VMap fields) →
  stored SqlTypeKeyword Marshal f key v = Some x →
  settled_value SqlTypeKeyword f key x.
Proof.
  intros Hv. destruct v as [| b | n | lit | s | items | fields]; cbn;
    try (by intros [= <-]).
  - destruct (omitNilValues f) eqn:Homit; [done|]. by intros [= <-].
  - destruct (Contains key SqlTypeKeyword) eqn:Hmarker; [by intros [= <-]|].
    destruct (Marshal (VSlice items)); [|done]. by intros [= <-].
  - by destruct (Hv fields).
Qed.

Lemma flatten_settles_leaf (v : value) (key : string) (d d' : gmap string value) :
  (∀ fields, v ≠ VMap fields) →
  flatten'' key v d = Ok d' → settled' d → settled' d'.
Proof.
  intros Hv Hf Hd k x Hk.
  destruct (flatten_leaf_value SqlTypeKeyword Marshal f v key d d' Hv Hf)
    as [Hkey Hother].
  destruct (decide (k = key)) as [->|Hne].
  - rewrite Hkey in Hk. unfold overwritten in Hk.
    destruct (stored SqlTypeKeyword Marshal f key v) as [s|] eqn:Hs.
    + injection Hk as <-. by eapply stored_settled.
    + by apply Hd.
  - rewrite Hother in Hk by done. by apply Hd.
Qed.

(** [flatten] keeps a settled destination settled. *)
Lemma flatten_settles (v : value) :
  ∀ key (d d' : gmap string value),
    flatten'' key v d = Ok d' → settled' d → settled' d'.
Proof.
  induction v as [| b | n | lit | s | items _ | fields H] using value_ind;
    intros key d d';
    try (apply flatten_settles_leaf; intros; discriminate).
  intros Hf. rewrite flatten_VMap in Hf. revert d Hf.
  induction fields as [|[k v] rest IHrest]; intros d Hf Hd.
  - by injection Hf as <-.
  - cbn [flatten_fields] in Hf.
    destruct (flatten'' (child_key key k) v d) as [d1|] eqn:Hhead; [|done].
    apply Forall_cons in H as [Hv Hrest]. cbn in Hv.
    apply (IHrest Hrest d1 Hf). by apply (Hv _ _ _ Hhead).
Qed.

Lemma FlattenObject_no_empty_key (json : list (string * value))
      (m : gmap string value) :
  FlattenObject SqlTypeKeyword Marshal f json = Ok m → m !! "" = None.
Proof.
  unfold FlattenObject.
  destruct (flatten _ _ _ _ _ _) as [d|]; [|done].
  destruct (d !! "") eqn:Hd; intros [= <-]; [|done].
  apply lookup_delete_eq.
Qed.

Lemma FlattenObject_settled_map (json : list (string * value))
      (m : gmap string value) :
  FlattenObject SqlTypeKeyword Marshal f json = Ok m → settled' m.
Proof.
  unfold FlattenObject.
  destruct (flatten _ _ _ _ _ _) as [d|] eqn:Hf; [|done].
  assert (Hd : settled' d).
  { apply (flatten_settles _ _ _ _ Hf). intros k x Hk.
    by rewrite lookup_empty in Hk. }
  destruct (d !! "") as [x|] eqn:Hempty; intros [= <-]; [|done].
  intros k v Hk.
  destruct (decide (k = "")) as [->|Hne];
    [by rewrite lookup_delete_eq in Hk|].
  rewrite lookup_delete_ne in Hk by done.
  destruct (decide (k = "_unnamed")) as [->|Hne'].
  - rewrite lookup_insert_eq in Hk. injection Hk as <-.
    specialize (Hd "" x Hempty).
    destruct x; try done. unfold settled_value in *.
    apply Contains_in_empty in Hd as ->. apply Contains_empty_marker.
  - rewrite lookup_insert_ne in Hk by done. by apply Hd.
Qed.

(** X16: the flat map that [FlattenObject] returns holds no mapping; it
    holds nil only when nil values are kept, and a sequence only under a
    key that contains the SQL-type marker. *)
Theorem FlattenObject_flat (json : list (string * value))
        (m : gmap string value) (key : string) (v : value) :
  FlattenObject SqlTypeKeyword Marshal f json = Ok m →
  m !! key = Some v →
  (∀ fields, v ≠ VMap fields)
  ∧ (v = VNil → omitNilValues f = false)
  ∧ (∀ items, v = VSlice items → Contains key SqlTypeKeyword = true).
Proof.
  intros Hf Hk.
  pose proof (FlattenObject_settled_map json m Hf key v Hk) as Hv.
  destruct v; cbn in Hv; split_and!; try done; try (by intros ? [=]).
Qed.

Lemma flatten_settled_value (key : string) (v : value) (d : gmap string value) :
  settled_value SqlTypeKeyword f key v →
  flatten'' key v d = Ok (<[key := v]> d).
Proof.
  destruct v as [| b | n | lit | s | items | fields]; cbn;
    rewrite ?orb_true_r; try done.
  - by intros ->.
  - by intros ->.
Qed.

Lemma flatten_fields_settled (l : list (string * value)) (d : gmap string value) :
  (∀ k v, (k, v) ∈ l → settled_value SqlTypeKeyword f k v) →
  flatten_fields SqlTypeKeyword Marshal f "" l d = Ok (fold_left store_entry l d).
Proof.
  revert d. induction l as [|[k v] l IH]; intros d Hl; [done|].
  cbn [flatten_fields fold_left].
  unfold child_key. rewrite decide_True by done.
  rewrite flatten_settled_value by (apply Hl; by left).
  apply IH. intros k' v' Hin. apply Hl. by right.
Qed.

End FlattenerShape.

Lemma fold_store_entry (l : list (string * value)) (d : gmap string value) :
  NoDup l.*1 → (∀ k, k ∈ l.*1 → d !! k = None) →
  fold_left store_entry l d = list_to_map l ∪ d.
Proof.
  revert d. induction l as [|[k v] l IH]; intros d Hnd Hfresh.
  - cbn. by rewrite (left_id_L ∅ (∪)).
  - apply NoDup_cons in Hnd as [Hk Hnd]. cbn [fold_left]. unfold store_entry at 2.
    cbn [fst snd]. rewrite IH; [|done|].
    + cbn [list_to_map foldr]. cbn [fst snd].
      rewrite <- insert_union_l.
      rewrite insert_union_r; [done|].
      by apply not_elem_of_list_to_map_1.
    + intros k' Hk'. rewrite lookup_insert_ne.
      * apply Hfresh. by right.
      * intros ->. done.
Qed.

(** X17: flattening is idempotent.  Whatever record [FlattenObject] has
    flattened, flattening the result again, in any order of its entries,
    returns the same flat map. *)
Theorem FlattenObject_idempotent (SqlTypeKeyword : string)
        (Marshal : value → option string) (f : FlattenerImpl)
        (json l : list (string * value)) (m : gmap string value) :
  FlattenObject SqlTypeKeyword Marshal f json = Ok m →
  l ≡ₚ map_to_list m →
  FlattenObject SqlTypeKeyword Marshal f l = Ok m.
Proof.
  intros Hf Hl.
  assert (Hnd : NoDup l.*1).
  { rewrite Hl. apply NoDup_fst_map_to_list. }
  assert (Hm : list_to_map l = m).
  { rewrite (list_to_map_proper l (map_to_list m)) by done.
    apply list_to_map_to_list. }
  unfold FlattenObject. rewrite flatten_VMap.
  rewrite flatten_fields_settled.
  - rewrite fold_store_entry by done.
    rewrite (right_id_L ∅ (∪)), Hm.
    by rewrite (FlattenObject_no_empty_key _ _ _ _ _ Hf).
  - intros k v Hin. rewrite Hl in Hin. apply elem_of_map_to_list in Hin.
    by apply (FlattenObject_settled_map _ _ _ _ _ Hf).
Qed.

Lemma FlattenObject_idempotent_witness :
  FlattenObject sample_keyword sample_marshal NewFlattener scenario_record
  = Ok (list_to_map [("$a", VInt 1); ("(b)", VInt 2); ("c_d_e", VInt 3);
                     ("arr", VStr "[1,2]")])
  ∧ [("arr", VStr "[1,2]"); ("$a", VInt 1); ("c_d_e", VInt 3); ("(b)", VInt 2)]
    ≡ₚ map_to_list
         (list_to_map [("$a", VInt 1); ("(b)", VInt 2); ("c_d_e", VInt 3);
                       ("arr", VStr "[1,2]")] : gmap string value)
  ∧ FlattenObject sample_keyword sample_marshal NewFlattener
      [("arr", VStr "[1,2]"); ("$a", VInt 1); ("c_d_e", VInt 3); ("(b)", VInt 2)]
    = Ok (list_to_map [("$a", VInt 1); ("(b)", VInt 2); ("c_d_e", VInt 3);
                       ("arr", VStr "[1,2]")]).
Proof.
  assert (H1 : FlattenObject sample_keyword sample_marshal NewFlattener
                 scenario_record
               = Ok (list_to_map [("$a", VInt 1); ("(b)", VInt 2);
                                  ("c_d_e", VInt 3); ("arr", VStr "[1,2]")]))
    by (vm_compute; reflexivity).
  assert (H2 : [("arr", VStr "[1,2]"); ("$a", VInt 1); ("c_d_e", VInt 3);
                ("(b)", VInt 2)]
               ≡ₚ map_to_list
                    (list_to_map [("$a", VInt 1); ("(b)", VInt 2);
                                  ("c_d_e", VInt 3); ("arr", VStr "[1,2]")]
                     : gmap string value)).
  { rewrite map_to_list_to_map.
    - apply NoDup_Permutation.
      + repeat constructor; set_solver.
      + repeat constructor; set_solver.
      + intros x. set_solver.
    - cbn. repeat constructor; set_solver. }
  exact (conj H1 (conj H2 (FlattenObject_idempotent _ _ _ _ _ _ H1 H2))).
Defined.

Lemma FlattenObject_flat_witness :
  (∀ fields, VStr "[1,2]" ≠ VMap fields)
  ∧ (VStr "[1,2]" = VNil → omitNilValues NewFlattener = false)
  ∧ (∀ items, VStr "[1,2]" = VSlice items →
              Contains "arr" sample_keyword = true).
Proof.
  apply (FlattenObject_flat sample_keyword sample_marshal NewFlattener
           scenario_record
           (list_to_map [("$a", VInt 1); ("(b)", VInt 2); ("c_d_e", VInt 3);
                         ("arr", VStr "[1,2]")])
           "arr" (VStr "[1,2]")).
  - vm_compute; reflexivity.
  - vm_compute; reflexivity.
Defined.

(** ** Flattener: the order in which a mapping is walked *)

Section FlattenerOrder.

Variable SqlTypeKeyword : string.
Variable Marshal : value → option string.
Variable f : FlattenerImpl.

Local Abbreviation flatten3 := (flatten SqlTypeKeyword Marshal f).
Local Abbreviation stored3 := (stored SqlTypeKeyword Marshal f).

(** The entry under a key after [flatten]: the entry from before, when no
    leaf that lands on the key stores anything, and otherwise what the
    flattener stores for one of the leaves that land on it. *)
Lemma flatten_last_writer (v : value) :
  ∀ key (d d' : gmap string value) (k0 : string),
    flatten3 key v d = Ok d' →
    (d' !! k0 = d !! k0
     ∧ ∀ p l, Leaf p v l → path_key key p = k0 → stored3 k0 l = None)
    ∨ (∃ p l, Leaf p v l ∧ path_key key p = k0
              ∧ is_Some (stored3 k0 l) ∧ d' !! k0 = stored3 k0 l).
Proof.
  induction v as [| b | n | lit | s | items _ | fields H] using value_ind;
    intros key d d' k0 Hf.
  1-6: match type of Hf with flatten _ _ _ _ ?v _ = _ =>
         assert (Hv : ∀ fields, v ≠ VMap fields) by (intros; discriminate);
         destruct (flatten_leaf_value SqlTypeKeyword Marshal f v key d d' Hv Hf)
           as [Hk Hother];
         destruct (decide (k0 = key)) as [->|Hne];
         [ destruct (stored3 key v) as [x|] eqn:Hs;
           [ right; exists [], v; split_and!;
             [by constructor | done | by rewrite Hs | by rewrite Hs]
           | left; split; [done|];
             intros p l HL _; apply (Leaf_not_map v p l Hv) in HL as [-> ->];
             done ]
         | left; split; [by apply Hother|];
           intros p l HL Hp; apply (Leaf_not_map v p l Hv) in HL as [-> ->];
           cbn in Hp; congruence ]
       end.
  rewrite flatten_VMap in Hf. revert d Hf.
  induction fields as [|[k v] rest IHrest]; intros d Hf.
  - cbn in Hf. injection Hf as <-. left. split; [done|].
    intros p l HL. apply Leaf_map_inv in HL as (? & ? & ? & _ & [] & _).
  - cbn [flatten_fields] in Hf.
    destruct (flatten3 (child_key key k) v d) as [d1|] eqn:Hhead; [|done].
    apply Forall_cons in H as [Hv Hrest]. cbn in Hv.
    specialize (Hv (child_key key k) d d1 k0 Hhead).
    destruct (IHrest Hrest d1 Hf)
      as [[Heq Hnone]|(p & l & HL & Hp & Hsome & Heq)].
    + destruct Hv as [[Heq1 Hnone1]|(p1 & l1 & HL1 & Hp1 & Hsome1 & Heq1)].
      * left. split; [congruence|].
        intros p l HL Hp.
        apply Leaf_map_inv in HL as (k' & v' & p' & -> & [Hin|Hin] & HL).
        -- inversion Hin; subst k' v'. by apply (Hnone1 p' l).
        -- apply (Hnone (k' :: p') l); [|done]. by econstructor.
      * right. exists (k :: p1), l1. split_and!; [|done|done|congruence].
        econstructor; [|done]. by left.
    + right. apply Leaf_map_inv in HL as (k' & v' & p' & -> & Hin & HL).
      exists (k' :: p'), l. split_and!; [|done|done|done].
      econstructor; [|done]. by right.
Qed.

(** Two listings of a record with the same leaves flatten to the same map
    when the leaves that land on one flat key agree on what is stored. *)
Lemma flatten_same_leaves (r r' : list (string * value))
      (m m' : gmap string value) :
  flatten3 "" (VMap r) ∅ = Ok m →
  flatten3 "" (VMap r') ∅ = Ok m' →
  (∀ p l, Leaf p (VMap r) l ↔ Leaf p (VMap r') l) →
  unambiguous SqlTypeKeyword Marshal f (VMap r) →
  m = m'.
Proof.
  intros Hm Hm' Hsame Hone. apply map_eq. intros k0.
  destruct (flatten_last_writer _ _ _ _ k0 Hm)
    as [[Heq Hnone]|(p & l & HL & Hp & Hsome & Heq)];
    destruct (flatten_last_writer _ _ _ _ k0 Hm')
      as [[Heq' Hnone']|(p' & l' & HL' & Hp' & Hsome' & Heq')].
  - congruence.
  - apply Hsame in HL'. rewrite (Hnone p' l' HL' Hp') in Hsome'.
    by destruct Hsome'.
  - apply Hsame in HL. rewrite (Hnone' p l HL Hp) in Hsome.
    by destruct Hsome.
  - apply Hsame in HL'. rewrite Heq, Heq'.
    specialize (Hone p l p' l' HL HL' (eq_trans Hp (eq_sym Hp'))).
    by rewrite Hp in Hone.
Qed.

(** X18: the flat map that [FlattenObject] returns does not depend on the
    order in which the mappings of a record are walked, as long as the
    leaves that land on one flat key agree on what is stored there: two
    listings of a record with the same leaves flatten to the same map. *)
Theorem FlattenObject_order_independent (r r' : list (string * value))
        (m m' : gmap string value) :
  FlattenObject SqlTypeKeyword Marshal f r = Ok m →
  FlattenObject SqlTypeKeyword Marshal f r' = Ok m' →
  (∀ p l, Leaf p (VMap r) l ↔ Leaf p (VMap r') l) →
  unambiguous SqlTypeKeyword Marshal f (VMap r) →
  m = m'.
Proof.
  unfold FlattenObject. intros Hm Hm' Hsame Hone.
  destruct (flatten3 "" (VMap r) ∅) as [d|] eqn:Hd; [|done].
  destruct (flatten3 "" (VMap r') ∅) as [d'|] eqn:Hd'; [|done].
  rewrite <- (flatten_same_leaves r r' d d' Hd Hd' Hsame Hone) in Hm'.
  congruence.
Qed.

End FlattenerOrder.

Lemma Leaf_same_fields (r r' : list (string * value)) (p : list string)
      (l : value) :
  (∀ kv, In kv r → In kv r') → Leaf p (VMap r) l → Leaf p (VMap r') l.
Proof.
  intros Hin HL. apply Leaf_map_inv in HL as (k & v & p' & -> & Hkv & HL).
  econstructor; [|done]. by apply Hin.
Qed.

Lemma scenario_record_leaves (p : list string) (l : value) :
  Leaf p (VMap scenario_record) l →
  In (p, l) [(["$a"], VInt 1); (["(b)"], VInt 2); (["c"; "d"; "e"], VInt 3);
             (["arr"], VSlice [VInt 1; VInt 2])].
Proof.
  intros HL. apply Leaf_map_inv in HL as (k & v & p' & -> & Hkv & HL).
  cbn in Hkv. destruct Hkv as [Hkv|[Hkv|[Hkv|[Hkv|[]]]]];
    injection Hkv as <- <-.
  - apply Leaf_not_map in HL as [-> ->]; [|done]. by left.
  - apply Leaf_not_map in HL as [-> ->]; [|done]. right. by left.
  - apply Leaf_map_inv in HL as (k & v & p & -> & Hkv & HL).
    destruct Hkv as [Hkv|[]]. injection Hkv as <- <-.
    apply Leaf_map_inv in HL as (k & v & p' & -> & Hkv & HL).
    destruct Hkv as [Hkv|[]]. injection Hkv as <- <-.
    apply Leaf_not_map in HL as [-> ->]; [|done]. right. right. by left.
  - apply Leaf_not_map in HL as [-> ->]; [|done]. right. right. right. by left.
Qed.

Lemma scenario_record_unambiguous :
  unambiguous sample_keyword sample_marshal NewFlattener (VMap scenario_record).
Proof.
  intros p l p' l' HL HL' Hkey.
  apply scenario_record_leaves in HL, HL'.
  cbn in HL, HL'.
  destruct HL as [HL|[HL|[HL|[HL|[]]]]]; injection HL as <- <-;
    destruct HL' as [HL'|[HL'|[HL'|[HL'|[]]]]]; injection HL' as <- <-;
    first [reflexivity | by vm_compute in Hkey].
Qed.

Lemma FlattenObject_order_independent_witness :
  (list_to_map [("$a", VInt 1); ("(b)", VInt 2); ("c_d_e", VInt 3);
                ("arr", VStr "[1,2]")] : gmap string value)
  = list_to_map [("arr", VStr "[1,2]"); ("c_d_e", VInt 3); ("(b)", VInt 2);
                 ("$a", VInt 1)].
Proof.
  apply (FlattenObject_order_independent sample_keyword sample_marshal NewFlattener
           scenario_record scenario_record_reordered).
  - vm_compute; reflexivity.
  - vm_compute; reflexivity.
  - intros p l; split; apply Leaf_same_fields; intros kv Hin; cbn in Hin |- *;
      tauto.
  - exact scenario_record_unambiguous.
Defined.

(** ** Flattener: when it fails *)

Section FlattenerErrors.

Variable SqlTypeKeyword : string.
Variable Marshal : value → option string.
Variable f : FlattenerImpl.

Local Abbreviation flatten4 := (flatten SqlTypeKeyword Marshal f).

(** A sequence that the encoder refuses, under a key without the marker. *)
Local Abbreviation refused key p v l :=
  (∃ items, l = VSlice items ∧ Leaf p v l
            ∧ Contains (path_key key p) SqlTypeKeyword = false
            ∧ Marshal l = None).

Lemma flatten_error (v : value) :
  ∀ key (d : gmap string value) k,
    flatten4 key v d = Err (MarshalError k) →
    ∃ p l, refused key p v l ∧ path_key key p = k.
Proof.
  induction v as [| b | n | lit | s | items _ | fields H] using value_ind;
    intros key d k; cbn; rewrite ?orb_true_r; try done.
  - by destruct (omitNilValues f).
  - destruct (Contains key SqlTypeKeyword) eqn:Hmarker; [done|].
    destruct (Marshal (VSlice items)) eqn:Hm; [done|]. intros [= <-].
    exists [], (VSlice items). split; [|done]. exists items.
    split_and!; try done. by constructor.
  - change (flatten4 key (VMap fields) d = Err (MarshalError k) →
            ∃ p l, refused key p (VMap fields) l ∧ path_key key p = k).
    rewrite flatten_VMap. revert d.
    induction fields as [|[k' v] rest IHrest]; intros d Hf; [done|].
    cbn [flatten_fields] in Hf.
    apply Forall_cons in H as [Hv Hrest]. cbn in Hv.
    destruct (flatten4 (child_key key k') v d) as [d1|e] eqn:Hhead.
    + destruct (IHrest Hrest d1 Hf)
        as (p & l & (items & -> & HL & Hmarker & Hm) & Hp).
      apply Leaf_map_inv in HL as (k1 & v1 & p1 & -> & Hin & HL).
      exists (k1 :: p1), (VSlice items). split; [|done]. exists items.
      split_and!; try done. econstructor; [|done]. by right.
    + injection Hf as ->.
      destruct (Hv _ _ _ Hhead)
        as (p & l & (items & -> & HL & Hmarker & Hm) & Hp).
      exists (k' :: p), (VSlice items). split; [|done]. exists items.
      split_and!; try done. econstructor; [|done]. by left.
Qed.

Lemma flatten_refused (v : value) :
  ∀ key (d : gmap string value) p l,
    refused key p v l → ∃ k, flatten4 key v d = Err (MarshalError k).
Proof.
  induction v as [| b | n | lit | s | items _ | fields H] using value_ind;
    intros key d p l (items' & -> & HL & Hmarker & Hm);
    try (apply Leaf_not_map in HL as [_ [=]]; done).
  - apply Leaf_not_map in HL as [-> [= ->]]; [|done].
    cbn in Hmarker |- *. rewrite Hmarker, Hm. eauto.
  - rewrite flatten_VMap. revert d.
    induction fields as [|[k' v] rest IHrest]; intros d.
    { apply Leaf_map_inv in HL as (? & ? & ? & _ & [] & _). }
    cbn [flatten_fields].
    apply Forall_cons in H as [Hv Hrest]. cbn in Hv.
    apply Leaf_map_inv in HL as (k1 & v1 & p1 & -> & [Hin|Hin] & HL).
    + injection Hin as -> ->.
      destruct (Hv (child_key key k1) d p1 (VSlice items')) as [k ->]; [|eauto].
      exists items'. by split_and!.
    + destruct (flatten4 (child_key key k') v d) as [d1|[k]]; [|eauto].
      apply (IHrest Hrest). by econstructor.
Qed.

(** X19: [FlattenObject] fails exactly when the record holds a sequence,
    under a flat key without the SQL-type marker, that the JSON encoder
    refuses; the error then names the flat key of such a sequence. *)
Theorem FlattenObject_fails_iff (json : list (string * value)) :
  ((∃ e, FlattenObject SqlTypeKeyword Marshal f json = Err e)
   ↔ ∃ p l, refused "" p (VMap json) l)
  ∧ ∀ k, FlattenObject SqlTypeKeyword Marshal f json = Err (MarshalError k) →
         ∃ p l, refused "" p (VMap json) l ∧ path_key "" p = k.
Proof.
  assert (Herr : ∀ k,
    FlattenObject SqlTypeKeyword Marshal f json = Err (MarshalError k) →
    ∃ p l, refused "" p (VMap json) l ∧ path_key "" p = k).
  { intros k. unfold FlattenObject.
    destruct (flatten4 "" (VMap json) ∅) as [m|e] eqn:Hf.
    - by destruct (m !! "").
    - intros [= ->]. by apply (flatten_error _ _ _ _ Hf). }
  split; [|done]. split.
  - intros [[k] He]. destruct (Herr k He) as (p & l & Hr & _). eauto.
  - intros (p & l & Hr). unfold FlattenObject.
    destruct (flatten_refused (VMap json) "" ∅ p l Hr) as [k ->]. eauto.
Qed.

End FlattenerErrors.

(** ** Tables: fitting and diffs together *)

(** X20: fitting column-wise is a preorder on tables; the diff of a
    destination against an incoming table always fits the incoming table,
    and fits the destination only when it adds no column. *)
Theorem FitsToTable_preorder {cr : CaseRanges} (a b c : Table) (entropy : list nat) :
  FitsToTable a a = true
  ∧ (FitsToTable a b = true → FitsToTable b c = true →
     FitsToTable a c = true)
  ∧ FitsToTable (Diff a (Some b) entropy) b = true
  ∧ (FitsToTable (Diff a (Some b) entropy) a = true
     ↔ Columns (Diff a (Some b) entropy) = ∅).
Proof.
  rewrite !FitsToTable_lookup. split_and!.
  - done.
  - intros Hab Hbc n Hn. by apply Hbc, Hab.
  - intros n [col Hn]. rewrite Diff_columns_lookup in Hn.
    destruct (Columns a !! n); [done|]. eauto.
  - rewrite map_empty. split.
    + intros Hfit n.
      destruct (Columns (Diff a (Some b) entropy) !! n) as [col|] eqn:Hn; [|done].
      destruct (Hfit n) as [col' Ha]; [eauto|].
      rewrite Diff_columns_lookup, Ha in Hn. done.
    + intros Hnone n [col Hn]. by rewrite Hnone in Hn.
Qed.

Lemma FitsToTable_preorder_witness :
  FitsToTable (events_table "events") (events_table "events_tmp") = true
  ∧ FitsToTable (events_table "events_tmp") (events_table "archive") = true
  ∧ FitsToTable (events_table "events") (events_table "archive") = true.
Proof.
  assert (H1 : FitsToTable (events_table "events") (events_table "events_tmp")
               = true) by (vm_compute; reflexivity).
  assert (H2 : FitsToTable (events_table "events_tmp") (events_table "archive")
               = true) by (vm_compute; reflexivity).
  exact (conj H1 (conj H2
           (proj1 (proj2 (FitsToTable_preorder (events_table "events")
                            (events_table "events_tmp")
                            (events_table "archive") []))
                  H1 H2))).
Defined.

(** ** MySQL: when the schema lookup fails *)

Lemma getTable_no_columns (rows : list (string * string))
      (acc : gmap string SQLColumn) :
  fold_left
    (fun (columns : gmap string SQLColumn) (row : string * string) =>
       if decide (snd row = "") then columns
       else <[fst row := column_of_type (snd row)]> columns)
    rows acc = ∅
  ↔ acc = ∅ ∧ ∀ row, row ∈ rows → snd row = "".
Proof.
  revert acc. induction rows as [|row rows IH]; intros acc; cbn [fold_left].
  - split; [|by intros [? _]]. intros ->. split; [done|].
    intros row Hrow. by apply elem_of_nil in Hrow.
  - rewrite IH. destruct (decide (snd row = "")) as [Hty|Hty].
    + split; intros [Hacc Hrows]; (split; [done|]).
      * intros r Hr. apply elem_of_cons in Hr as [->|Hr]; [done|by apply Hrows].
      * intros r Hr. apply Hrows. by right.
    + split.
      * intros [Hins _]. by apply insert_non_empty in Hins.
      * intros [_ Hrows]. destruct Hty. apply Hrows. by left.
Qed.

(** X21: [GetTableSchema] fails in two ways only, and changes nothing when
    it does: with a [GetTableError] when the query for the columns fails,
    and with a [GetPrimaryKeysError] when the table has a column and the
    query for the primary key fails.  A failing primary-key query is
    harmless for a table without columns. *)
Theorem GetTableSchema_fails (tableName : string) (m : MySQL) :
  (∀ e m', mysql_GetTableSchema tableName m = (Err e, m') →
           m' = m
           ∧ (kind e = GetTableError
              ∧ rejects m (StmtSelectColumns tableName) = true
              ∨ kind e = GetPrimaryKeysError
                ∧ rejects m (StmtSelectColumns tableName) = false
                ∧ rejects m (StmtSelectPrimaryKeys tableName) = true
                ∧ ∃ row, row ∈ information_schema_columns m tableName
                         ∧ snd row ≠ ""))
  ∧ (rejects m (StmtSelectColumns tableName) = true →
     ∃ e, mysql_GetTableSchema tableName m = (Err e, m)
          ∧ kind e = GetTableError)
  ∧ (rejects m (StmtSelectColumns tableName) = false →
     rejects m (StmtSelectPrimaryKeys tableName) = true →
     (∃ row, row ∈ information_schema_columns m tableName ∧ snd row ≠ "") →
     ∃ e, mysql_GetTableSchema tableName m = (Err e, m)
          ∧ kind e = GetPrimaryKeysError).
Proof.
  unfold mysql_GetTableSchema, getTable, getPrimaryKeys.
  destruct (rejects m (StmtSelectColumns tableName)) eqn:Hcols.
  { split_and!; [|eauto|done].
    intros e m' [= <- <-]. split; [done|]. by left. }
  cbn [Columns].
  set (columns := fold_left _ (information_schema_columns m tableName) ∅).
  assert (Hrows : nonempty_map columns = true
                  ↔ ∃ row, row ∈ information_schema_columns m tableName
                           ∧ snd row ≠ "").
  { unfold nonempty_map. rewrite bool_decide_eq_true.
    unfold columns. rewrite getTable_no_columns. split.
    - intros Hne.
      destruct (decide (Forall (fun row : string * string => snd row = "")
                               (information_schema_columns m tableName)))
        as [Hall|Hsome].
      + destruct Hne. split; [done|]. by apply Forall_forall.
      + apply not_Forall_Exists in Hsome; [|apply _].
        apply Exists_exists in Hsome as (row & Hin & Hty). eauto.
    - intros (row & Hin & Hty) [_ Hall]. by apply Hty, Hall. }
  destruct (nonempty_map columns) eqn:Hne; cbn [negb].
  - destruct (rejects m (StmtSelectPrimaryKeys tableName)) eqn:Hpk.
    + split_and!; [|done|eauto].
      intros e m' [= <- <-]. split; [done|]. right.
      split_and!; try done. by apply Hrows.
    + split_and!; [|done|done].
      intros e m'. destruct (nonempty_set _); [|done].
      by destruct (draw m).
  - split_and!; [done|done|].
    intros _ _ Hsome. apply Hrows in Hsome. done.
Qed.

Lemma GetTableSchema_fails_witness :
  rejects (server rejects_primary_key_query []) (StmtSelectColumns "events")
  = false
  ∧ ∃ e, mysql_GetTableSchema "events" (server rejects_primary_key_query [])
         = (Err e, server rejects_primary_key_query [])
         ∧ kind e = GetPrimaryKeysError.
Proof.
  assert (H1 : rejects (server rejects_primary_key_query [])
                       (StmtSelectColumns "events") = false) by reflexivity.
  assert (H2 : rejects (server rejects_primary_key_query [])
                       (StmtSelectPrimaryKeys "events") = true) by reflexivity.
  split; [exact H1|].
  apply (proj2 (proj2 (GetTableSchema_fails "events"
                         (server rejects_primary_key_query []))) H1 H2).
  exists ("id", "BIGINT"). split; [|done].
  vm_compute. left.
Defined.
